(** * rv8: the software MMU ([src/emu/riscv-soft-mmu.h]) and the image
      loader loop of [src/app/rv-sim.cc]

    The MMU is a C++ template over the guest word type [UX], a TLB type, a
    PMA table type and a memory type.  Its methods take the processor by
    reference, call the TLBs and the memory, read and write host memory
    through raw pointers and leave through [longjmp(proc.env, cause)].
    They are embedded here in a state-and-exception monad over a [world]
    that holds the processor, the MMU, the host address space and the list
    of calls made on the TLBs and on the memory. *)

From stdpp Require Import base list strings.
From Stdlib Require Import ZArith Lia Bool.

Open Scope Z_scope.

(** ** Machine integers *)

(** Conversion to an unsigned integer type of [w] bits. *)
Definition wrap (w x : Z) : Z := x mod 2 ^ w.

(** Conversion to a signed integer type of [w] bits. *)
Definition sign_extend (w x : Z) : Z :=
  (x + 2 ^ (w - 1)) mod 2 ^ w - 2 ^ (w - 1).

(** [addr_t] is the 64-bit unsigned address type of the simulator. *)
Definition addr_bits : Z := 64.

(** Modelled from the spec: the page constants and [illegal_address] are
    declared in headers that are not under src/.  Pages are 4 KiB
    ([shift = bits*level + 12], [va & 4095]) and [illegal_address] is the
    all-ones value of [addr_t]. *)
Definition page_shift : Z := 12.
Definition page_size : Z := Z.shiftl 1 page_shift.
Definition page_mask : Z := Z.lnot (page_size - 1).
Definition illegal_address : Z := Z.ones addr_bits.

(** The integer types [T] of the typed accesses. *)
Inductive int_type : Type := u8 | u16 | u32 | u64.

Definition sizeof (T : int_type) : Z :=
  match T with u8 => 1 | u16 => 2 | u32 => 4 | u64 => 8 end.

Definition sizeof_nat (T : int_type) : nat := Z.to_nat (sizeof T).

(** ** Enumerations of the processor headers *)

(** Modelled from the spec: privilege modes M/S/U. *)
Inductive riscv_mode : Type := riscv_mode_U | riscv_mode_S | riscv_mode_M.

(** Modelled from the spec: the schemes that [mstatus.vm] selects.  The
    [switch] of [translate_addr] has four cases and no default; every
    other encoding of the field is [riscv_vm_other]. *)
Inductive riscv_vm : Type :=
  | riscv_vm_mbare
  | riscv_vm_sv32
  | riscv_vm_sv39
  | riscv_vm_sv48
  | riscv_vm_other (enc : Z).

(** The six causes that the MMU passes to [longjmp]. *)
Inductive riscv_cause : Type :=
  | riscv_cause_misaligned_fetch
  | riscv_cause_fault_fetch
  | riscv_cause_misaligned_load
  | riscv_cause_fault_load
  | riscv_cause_misaligned_store
  | riscv_cause_fault_store.

Definition is_misaligned_cause (c : riscv_cause) : bool :=
  match c with
  | riscv_cause_misaligned_fetch
  | riscv_cause_misaligned_load
  | riscv_cause_misaligned_store => true
  | _ => false
  end.

(** ** Page-table entries *)

(** Modelled from the spec: the paging schemes ([PTM] template argument),
    declared in a header that is not under src/.  [levels], [bits] and the
    size of a PTE are those of section 4.4.2.  The spec leaves the bit
    layout of a PTE to the RISC-V privileged architecture: the low ten
    bits of the word are [val.flags] and the next [pte_ppn_bits] bits are
    [val.ppn]. *)
Record PTM : Type := {
  levels : nat;
  bits : Z;
  sizeof_pte : Z;
  pte_ppn_bits : Z
}.

Definition sv32 : PTM :=
  {| levels := 2; bits := 10; sizeof_pte := 4; pte_ppn_bits := 22 |}.
Definition sv39 : PTM :=
  {| levels := 3; bits := 9; sizeof_pte := 8; pte_ppn_bits := 38 |}.
Definition sv48 : PTM :=
  {| levels := 4; bits := 9; sizeof_pte := 8; pte_ppn_bits := 38 |}.

(** Modelled from the spec: the flag bits V, R, W, X, U, G, A, D, in this
    order from bit 0. *)
Definition pte_shift_V : Z := 0.
Definition pte_shift_R : Z := 1.
Definition pte_shift_W : Z := 2.
Definition pte_shift_X : Z := 3.
Definition pte_flag_V : Z := Z.shiftl 1 pte_shift_V.
Definition pte_flag_R : Z := Z.shiftl 1 pte_shift_R.
Definition pte_flag_W : Z := Z.shiftl 1 pte_shift_W.
Definition pte_flag_X : Z := Z.shiftl 1 pte_shift_X.
Definition pte_flag_bits : Z := 10.

(** [pte.val.flags] and [pte.val.ppn] of a PTE word [pte.xu.val]. *)
Definition pte_flags (pte : Z) : Z := Z.land pte (Z.ones pte_flag_bits).
Definition pte_ppn (ptm : PTM) (pte : Z) : Z :=
  Z.land (Z.shiftr pte pte_flag_bits) (Z.ones (pte_ppn_bits ptm)).

(** [pte.val.ppn << page_shift] of line 210.  The bit-field is promoted
    before the shift: to [int] when [int] holds all its values, as for
    the 22 bits of sv32, to [unsigned int] when it has 32 bits, and it
    keeps the type of the PTE word otherwise, as for sv39 and sv48.  The
    shift is made at that width; an [int] that has overflowed is the
    32-bit pattern read as a signed number. *)
Definition pte_ppn_shifted (ptm : PTM) (pte : Z) : Z :=
  let shifted := Z.shiftl (pte_ppn ptm pte) page_shift in
  if pte_ppn_bits ptm <? 32 then sign_extend 32 shifted
  else if pte_ppn_bits ptm =? 32 then wrap 32 shifted
  else wrap (8 * sizeof_pte ptm) shifted.

(** ** Processor, TLB and memory interfaces *)

(** The fields of the processor [P] that the MMU reads or writes. *)
Record processor : Type := {
  mode : riscv_mode;
  mstatus_mprv : Z;
  mstatus_vm : riscv_vm;
  pdid : Z;
  sptbr : Z;
  badaddr : Z
}.

Definition set_badaddr (va : Z) (p : processor) : processor :=
  {| mode := mode p; mstatus_mprv := mstatus_mprv p;
     mstatus_vm := mstatus_vm p; pdid := pdid p; sptbr := sptbr p;
     badaddr := va |}.

(** Modelled from the spec: a TLB entry. *)
Record tlb_entry_t : Type := {
  ent_pdid : Z;
  ent_asid : Z;
  ent_vpn : Z;
  ent_ppn : Z;
  ent_flags : Z
}.

(** The [TLB] template argument: what the MMU uses of it.  A pointer to an
    entry is the entry, [nullptr] is [None]. *)
Class TLB (tlb_type : Type) : Type := {
  ppn_bits : Z;
  tlb_lookup : tlb_type -> Z -> Z -> Z -> option tlb_entry_t;
  tlb_insert : tlb_type -> Z -> Z -> Z -> Z -> Z -> tlb_type * tlb_entry_t
}.

(** The [MEMORY] template argument. *)
Class MEMORY (memory_type : Type) : Type := {
  mpa_to_uva : memory_type -> Z -> Z
}.

(** The host address space, byte by byte; the host is little-endian. *)
Definition host_memory : Type := Z -> Z.

Fixpoint host_load (h : host_memory) (uva : Z) (n : nat) : Z :=
  match n with
  | O => 0
  | S n' => h uva mod 256 + 256 * host_load h (uva + 1) n'
  end.

Fixpoint host_store (h : host_memory) (uva : Z) (n : nat) (v : Z) : host_memory :=
  match n with
  | O => h
  | S n' =>
      host_store (fun a => if a =? uva then v mod 256 else h a)
                 (uva + 1) n' (v / 256)
  end.

(** Which of the two TLB members a [tlb_type &] argument refers to. *)
Inductive tlb_ref : Type := ref_l1_dtlb | ref_l1_itlb.

(** A call made by the MMU on one of its members. *)
Inductive call : Type :=
  | call_lookup (t : tlb_ref) (pdid asid va : Z)
  | call_insert (t : tlb_ref) (pdid asid va flags ppn : Z)
  | call_mpa_to_uva (mpa : Z).

(** The outcome of a method: it returns, or it leaves by
    [longjmp (proc.env, cause)]. *)
Inductive outcome (A : Type) : Type :=
  | returns (a : A)
  | longjmp (cause : riscv_cause).
Arguments returns {A} a.
Arguments longjmp {A} cause.

Section MMU.

Context {tlb_type pma_type memory_type : Type}.
Context {tlb_ops : TLB tlb_type} {mem_ops : MEMORY memory_type}.

(** Width of [UX], 32 or 64. *)
Variable XLEN : Z.

Definition UX (x : Z) : Z := wrap XLEN x.

(** [struct mmu]. *)
Record mmu : Type := {
  l1_dtlb : tlb_type;
  l1_itlb : tlb_type;
  pma : pma_type;
  mem : memory_type
}.

(** What a method of the MMU can see and change: the processor it is
    given, the MMU itself, host memory, the object bound to the
    reference parameter [val] of [load], and the calls made so far. *)
Record world : Type := {
  w_proc : processor;
  w_mmu : mmu;
  w_host : host_memory;
  w_val : Z;
  w_calls : list call
}.

Definition M (A : Type) : Type := world -> outcome A * world.

Definition ret {A} (a : A) : M A := fun w => (returns a, w).

Definition bind {A B} (m : M A) (k : A -> M B) : M B :=
  fun w =>
    match m w with
    | (returns a, w') => k a w'
    | (longjmp c, w') => (longjmp c, w')
    end.

Definition do_longjmp {A} (c : riscv_cause) : M A := fun w => (longjmp c, w).

Notation "x <- m ;; k" := (bind m (fun x => k))
  (at level 100, m at next level, right associativity).
Notation "m ;; k" := (bind m (fun _ => k))
  (at level 100, right associativity).

(** *** Updates of the world *)

Definition with_proc (p : processor) (w : world) : world :=
  {| w_proc := p; w_mmu := w_mmu w; w_host := w_host w;
     w_val := w_val w; w_calls := w_calls w |}.

Definition with_mmu (m : mmu) (w : world) : world :=
  {| w_proc := w_proc w; w_mmu := m; w_host := w_host w;
     w_val := w_val w; w_calls := w_calls w |}.

Definition with_host (h : host_memory) (w : world) : world :=
  {| w_proc := w_proc w; w_mmu := w_mmu w; w_host := h;
     w_val := w_val w; w_calls := w_calls w |}.

Definition with_val (v : Z) (w : world) : world :=
  {| w_proc := w_proc w; w_mmu := w_mmu w; w_host := w_host w;
     w_val := v; w_calls := w_calls w |}.

Definition with_call (c : call) (w : world) : world :=
  {| w_proc := w_proc w; w_mmu := w_mmu w; w_host := w_host w;
     w_val := w_val w; w_calls := w_calls w ++ [c] |}.

Definition get_tlb (t : tlb_ref) (m : mmu) : tlb_type :=
  match t with ref_l1_dtlb => l1_dtlb m | ref_l1_itlb => l1_itlb m end.

Definition set_tlb (t : tlb_ref) (tlb : tlb_type) (m : mmu) : mmu :=
  match t with
  | ref_l1_dtlb =>
      {| l1_dtlb := tlb; l1_itlb := l1_itlb m; pma := pma m; mem := mem m |}
  | ref_l1_itlb =>
      {| l1_dtlb := l1_dtlb m; l1_itlb := tlb; pma := pma m; mem := mem m |}
  end.

Definition set_pma (p : pma_type) (m : mmu) : mmu :=
  {| l1_dtlb := l1_dtlb m; l1_itlb := l1_itlb m; pma := p; mem := mem m |}.

(** *** Primitive steps *)

Definition get_proc : M processor := fun w => (returns (w_proc w), w).

(** [proc.badaddr = va;] *)
Definition assign_badaddr (va : Z) : M unit :=
  fun w => (returns tt, with_proc (set_badaddr va (w_proc w)) w).

(** [val = v;] through the reference parameter of [load]. *)
Definition assign_val (v : Z) : M unit :=
  fun w => (returns tt, with_val v w).

(** [tlb.lookup (pdid, asid, va)] on the TLB that [t] refers to. *)
Definition lookup_in (t : tlb_ref) (pdid asid va : Z) : M (option tlb_entry_t) :=
  fun w =>
    (returns (tlb_lookup (get_tlb t (w_mmu w)) pdid asid va),
     with_call (call_lookup t pdid asid va) w).

(** [tlb.insert (pdid, asid, va, flags, ppn)] on the TLB that [t] refers to. *)
Definition insert_in (t : tlb_ref) (pdid asid va flags ppn : Z) : M tlb_entry_t :=
  fun w =>
    let '(tlb', ent) := tlb_insert (get_tlb t (w_mmu w)) pdid asid va flags ppn in
    (returns ent,
     with_call (call_insert t pdid asid va flags ppn)
               (with_mmu (set_tlb t tlb' (w_mmu w)) w)).

(** [mem.mpa_to_uva (mpa)]. *)
Definition mem_mpa_to_uva (mpa : Z) : M Z :=
  fun w =>
    (returns (mpa_to_uva (mem (w_mmu w)) mpa),
     with_call (call_mpa_to_uva mpa) w).

(** [*(T* )uva] read and written. *)
Definition deref (uva : Z) (n : nat) : M Z :=
  fun w => (returns (host_load (w_host w) uva n), w).

Definition deref_assign (uva : Z) (n : nat) (v : Z) : M unit :=
  fun w => (returns tt, with_host (host_store (w_host w) uva n v) w).

(** Modelled from the spec: [riscv::inst_fetch (uva, pc_offset)] of the
    codec header, not under src/.  It reads one instruction of 16 or 32
    bits and gives the increment of the program counter, 2 for a
    compressed instruction and 4 for a full one. *)
Definition riscv_inst_fetch (uva : Z) : M (Z * Z) :=
  lo <- deref uva 2 ;;
  if Z.land lo 3 =? 3
  then hi <- deref (uva + 2) 2 ;; ret (Z.lor lo (Z.shiftl hi 16), 4)
  else ret (lo, 2).

(** *** The methods of [struct mmu] *)

Definition misaligned (T : int_type) (va : Z) : bool :=
  negb (Z.land va (sizeof T - 1) =? 0).

Definition illegal (pa : Z) : bool := pa =? illegal_address.

(** The test of lines 203-204 on [pte.val.flags]. *)
Definition pte_fault (flags : Z) : bool :=
  negb (Z.land
          (Z.lor (Z.shiftr (Z.lnot flags) pte_shift_V)
                 (Z.land (Z.shiftr (Z.lnot flags) pte_shift_R)
                         (Z.shiftr flags pte_shift_W)))
          1 =? 0).

(** The test of line 207. *)
Definition pte_leaf (flags : Z) : bool :=
  negb (Z.land flags (Z.lor pte_flag_R pte_flag_X) =? 0).

(** What the body of the loop of [walk_page_table] does with the PTE it
    has read: [goto out], [return pa], or step to the next table. *)
Inductive walk_next : Type :=
  | walk_out
  | walk_return (pa : Z)
  | walk_step (ppn : Z).

Definition walk_pte (ptm : PTM) (va shift pte : Z) : walk_next :=
  if pte_fault (pte_flags pte) then walk_out
  else if pte_leaf (pte_flags pte) then
    walk_return
      (wrap addr_bits
         (pte_ppn_shifted ptm pte + Z.land va (Z.shiftl 1 shift - 1)))
  else walk_step (UX (pte_ppn ptm pte)).

(** The loop of [walk_page_table], [n] levels to go ([level = n - 1]),
    with the current [ppn] and the content [pte] of the PTE holder.  The
    result is the returned address and the PTE holder; the [debug]
    message after [out:] is not modelled. *)
Fixpoint walk_levels (ptm : PTM) (va : Z) (n : nat) (ppn pte : Z) : M (Z * Z) :=
  match n with
  | O => ret (illegal_address, pte)
  | S level =>
      let shift := bits ptm * Z.of_nat level + page_shift in
      let vpn := Z.land (Z.shiftr va shift) (Z.shiftl 1 (bits ptm) - 1) in
      let pte_mpa := UX (ppn + vpn * sizeof_pte ptm) in
      pte_uva <- mem_mpa_to_uva pte_mpa ;;
      if pte_uva =? illegal_address then ret (illegal_address, pte)
      else
        pte <- deref pte_uva (Z.to_nat (sizeof_pte ptm)) ;;
        match walk_pte ptm va shift pte with
        | walk_out => ret (illegal_address, pte)
        | walk_return pa => ret (pa, pte)
        | walk_step ppn' => walk_levels ptm va level ppn' 0
        end
  end.

(** [walk_page_table<P,PTM>]; the PTE holder of the caller is not
    initialised, it is taken as 0. *)
Definition walk_page_table (ptm : PTM) (va : Z) : M (Z * Z) :=
  proc <- get_proc ;;
  let ppn := UX (Z.land (sptbr proc) (Z.shiftl 1 ppn_bits - 1)) in
  walk_levels ptm va (levels ptm) ppn 0.

(** [page_translate_addr_tlb_miss<P,PTM>]: address and [tlb_ent]. *)
Definition page_translate_addr_tlb_miss (ptm : PTM) (va : Z) (tlb : tlb_ref)
    (tlb_ent : option tlb_entry_t) : M (Z * option tlb_entry_t) :=
  r <- walk_page_table ptm va ;;
  let '(pa, pte) := r in
  if negb (pa =? illegal_address) then
    proc <- get_proc ;;
    ent <- insert_in tlb (pdid proc) (Z.shiftr (sptbr proc) ppn_bits)
                     va (pte_flags pte) (pte_ppn ptm pte) ;;
    ret (pa, Some ent)
  else ret (pa, tlb_ent).

(** [page_translate_addr<P,PTM>].  [tlb_ent->ppn] is a field of the entry
    type of the TLB, which is not under src/; its shift is taken at the
    width of [addr_t]. *)
Definition page_translate_addr (ptm : PTM) (va : Z) (tlb : tlb_ref)
    : M (Z * option tlb_entry_t) :=
  proc <- get_proc ;;
  tlb_ent <- lookup_in tlb (pdid proc) (Z.shiftr (sptbr proc) ppn_bits) va ;;
  match tlb_ent with
  | Some ent =>
      ret (wrap addr_bits
             (Z.lor (Z.shiftl (ent_ppn ent) page_shift)
                    (Z.land va (Z.lnot page_mask))),
           tlb_ent)
  | None => page_translate_addr_tlb_miss ptm va tlb tlb_ent
  end.

(** [translate_addr<P,inst_fetch>]. *)
Definition translate_addr (inst_fetch : bool) (va : Z)
    (tlb_ent : option tlb_entry_t) : M (Z * option tlb_entry_t) :=
  proc <- get_proc ;;
  let tlb := if inst_fetch then ref_l1_itlb else ref_l1_dtlb in
  match mode proc, mstatus_mprv proc =? 0 with
  | riscv_mode_M, true => ret (va, tlb_ent)
  | _, _ =>
      match mstatus_vm proc with
      | riscv_vm_mbare => ret (va, tlb_ent)
      | riscv_vm_sv32 => page_translate_addr sv32 va tlb
      | riscv_vm_sv39 => page_translate_addr sv39 va tlb
      | riscv_vm_sv48 => page_translate_addr sv48 va tlb
      | riscv_vm_other _ => ret (illegal_address, tlb_ent)
      end
  end.

(** [inst_fetch<P>]: the instruction and [pc_offset].  Line 46 calls
    [translate_addr<P,false>]. *)
Definition inst_fetch (pc : Z) : M (Z * Z) :=
  let tlb_ent : option tlb_entry_t := None in
  if misaligned u16 pc then
    assign_badaddr pc ;; do_longjmp riscv_cause_misaligned_fetch
  else
    r <- translate_addr false pc tlb_ent ;;
    let mpa := fst r in
    uva <- (if illegal mpa then ret mpa else mem_mpa_to_uva mpa) ;;
    if illegal uva then
      assign_badaddr pc ;; do_longjmp riscv_cause_fault_fetch
    else riscv_inst_fetch uva.

(** [load<P,T>]; [val] is the cell [w_val] of the world.  [load] and
    [store] call [translate_addr] with the default [inst_fetch = false]. *)
Definition load (T : int_type) (va : Z) : M unit :=
  let tlb_ent : option tlb_entry_t := None in
  if misaligned T va then
    assign_badaddr va ;; do_longjmp riscv_cause_misaligned_load
  else
    r <- translate_addr false va tlb_ent ;;
    let mpa := fst r in
    uva <- (if illegal mpa then ret mpa else mem_mpa_to_uva mpa) ;;
    if illegal uva then
      assign_badaddr va ;; do_longjmp riscv_cause_fault_load
    else
      v <- deref uva (sizeof_nat T) ;;
      assign_val v.

(** [store<P,T>]. *)
Definition store (T : int_type) (va : Z) (val : Z) : M unit :=
  let tlb_ent : option tlb_entry_t := None in
  if misaligned T va then
    assign_badaddr va ;; do_longjmp riscv_cause_misaligned_store
  else
    r <- translate_addr false va tlb_ent ;;
    let mpa := fst r in
    uva <- (if illegal mpa then ret mpa else mem_mpa_to_uva mpa) ;;
    if illegal uva then
      assign_badaddr va ;; do_longjmp riscv_cause_fault_store
    else deref_assign uva (sizeof_nat T) val.

End MMU.

Arguments mmu : clear implicits.
Arguments world : clear implicits.

(** ** The template arguments of [mmu_rv64] *)

(** Modelled from the spec: the direct-mapped TLB of section 4.3, which is
    declared in a header that is not under src/: an array of slots, each
    empty or holding an entry. *)
Definition tagged_tlb : Type := list (option tlb_entry_t).

(** Modelled from the spec: the capacity, 128 entries. *)
Definition tlb_size : Z := 128.

(** Modelled from the spec: the slot of an address is its virtual page
    number modulo the capacity (the hash is taken to be the identity). *)
Definition tlb_index (va : Z) : nat :=
  Z.to_nat (Z.shiftr va page_shift mod tlb_size).

(** Modelled from the spec: [lookup] matches only when the stored pdid,
    root ppn and vpn all equal the query. *)
Definition tagged_tlb_lookup (tlb : tagged_tlb) (pdid asid va : Z)
    : option tlb_entry_t :=
  match tlb !! tlb_index va with
  | Some (Some ent) =>
      if (ent_pdid ent =? pdid) && (ent_asid ent =? asid)
         && (ent_vpn ent =? Z.shiftr va page_shift)
      then Some ent else None
  | _ => None
  end.

(** Modelled from the spec: [insert] writes the slot unconditionally and
    returns the entry. *)
Definition tagged_tlb_insert (tlb : tagged_tlb) (pdid asid va flags ppn : Z)
    : tagged_tlb * tlb_entry_t :=
  let ent := {| ent_pdid := pdid; ent_asid := asid;
                ent_vpn := Z.shiftr va page_shift;
                ent_ppn := ppn; ent_flags := flags |} in
  (<[tlb_index va := Some ent]> tlb, ent).

(** Modelled from the spec: the TLB after [flush_all]. *)
Definition tlb_flushed : tagged_tlb := replicate (Z.to_nat tlb_size) None.

(** The TLB as a [TLB] argument of the MMU; [sptbr_ppn_bits] is the width
    of the root ppn in [sptbr], [tlb_type::ppn_bits]. *)
Definition tagged_tlb_ops (sptbr_ppn_bits : Z) : TLB tagged_tlb :=
  {| ppn_bits := sptbr_ppn_bits;
     tlb_lookup := tagged_tlb_lookup;
     tlb_insert := tagged_tlb_insert |}.

(** Modelled from the spec: the memory of section 4.1, declared in a header
    that is not under src/: segments, each a guest-physical range paired
    with a host region. *)
Record memory_segment : Type := {
  seg_mpa : Z;
  seg_uva : Z;
  seg_size : Z
}.

Definition user_memory : Type := list memory_segment.

(** Modelled from the spec: [mpa_to_uva] gives the host address of a guest
    physical address inside a segment and [illegal_address] where no
    segment covers it. *)
Fixpoint user_mpa_to_uva (segments : user_memory) (mpa : Z) : Z :=
  match segments with
  | [] => illegal_address
  | seg :: rest =>
      if (seg_mpa seg <=? mpa) && (mpa <? seg_mpa seg + seg_size seg)
      then seg_uva seg + (mpa - seg_mpa seg)
      else user_mpa_to_uva rest mpa
  end.

Definition user_memory_ops : MEMORY user_memory :=
  {| mpa_to_uva := user_mpa_to_uva |}.

(** Modelled from the spec: the PMA table of section 4.2, declared in a
    header that is not under src/: entries [(base, length, attributes)]. *)
Record pma_entry : Type := {
  pma_base : Z;
  pma_length : Z;
  pma_readable : bool;
  pma_writable : bool;
  pma_executable : bool
}.

Definition pma_table : Type := list pma_entry.

(** Modelled from the spec: lookup gives the first entry whose range
    contains the address. *)
Fixpoint pma_lookup (table : pma_table) (pa : Z) : option pma_entry :=
  match table with
  | [] => None
  | e :: rest =>
      if (pma_base e <=? pa) && (pa <? pma_base e + pma_length e)
      then Some e else pma_lookup rest pa
  end.

(** ** The image loader loop of [rv_emulator::start_proxy] *)

Module Elf.

(** The segment types and permission flags of the ELF format; the header
    that declares them is not under src/, the values are those of the
    ELF specification. *)
Definition PT_LOAD : Z := 1.
Definition PT_DYNAMIC : Z := 2.
Definition PT_GNU_STACK : Z := 0x6474e551.
Definition PF_X : Z := 1.
Definition PF_W : Z := 2.
Definition PF_R : Z := 4.

Record Elf64_Phdr : Type := {
  p_type : Z;
  p_flags : Z;
  p_offset : Z;
  p_vaddr : Z;
  p_paddr : Z;
  p_filesz : Z;
  p_memsz : Z;
  p_align : Z
}.

(** Modelled from the spec: [proc.map_load_segment_user (filename, phdr)]
    is a method of the proxy processor, not under src/; it maps the
    range of [phdr] into guest memory at [p_vaddr].  The guest memory is
    seen here as the list of the headers mapped so far. *)
Definition map_load_segment_user (phdr : Elf64_Phdr)
    (mapped : list Elf64_Phdr) : list Elf64_Phdr :=
  mapped ++ [phdr].

(** The loop of lines 287-292 over [elf.phdrs]. *)
Fixpoint load_segments (phdrs : list Elf64_Phdr)
    (mapped : list Elf64_Phdr) : list Elf64_Phdr :=
  match phdrs with
  | [] => mapped
  | phdr :: rest =>
      if negb (Z.land (p_flags phdr) (Z.lor PT_LOAD PT_DYNAMIC) =? 0)
      then load_segments rest (map_load_segment_user phdr mapped)
      else load_segments rest mapped
  end.

(** A header of type [PT_LOAD] or [PT_DYNAMIC]. *)
Definition is_load_or_dynamic (phdr : Elf64_Phdr) : bool :=
  (p_type phdr =? PT_LOAD) || (p_type phdr =? PT_DYNAMIC).

(** A read-only [PT_LOAD] segment at 0x10000, and the [PT_GNU_STACK]
    header (read and write, no address, no size). *)
Definition rodata_phdr : Elf64_Phdr :=
  {| p_type := PT_LOAD; p_flags := PF_R; p_offset := 0;
     p_vaddr := 0x10000; p_paddr := 0x10000;
     p_filesz := 0x1000; p_memsz := 0x1000; p_align := 0x1000 |}.

Definition gnu_stack_phdr : Elf64_Phdr :=
  {| p_type := PT_GNU_STACK; p_flags := Z.lor PF_R PF_W; p_offset := 0;
     p_vaddr := 0; p_paddr := 0;
     p_filesz := 0; p_memsz := 0; p_align := 16 |}.

End Elf.

(** ** Concrete machines for the scenarios *)

Module Scenario.

(** [mmu_rv64]: 64-bit words; the root ppn of [sptbr] is its low 38
    bits. *)
Definition XLEN : Z := 64.
Definition tlb_rv64 : TLB tagged_tlb := tagged_tlb_ops 38.

Definition World : Type := world tagged_tlb pma_table user_memory.

Definition mmu_of (table : pma_table) (segments : user_memory)
    : mmu tagged_tlb pma_table user_memory :=
  {| l1_dtlb := tlb_flushed; l1_itlb := tlb_flushed;
     pma := table; mem := segments |}.

Definition run_load (T : int_type) (va : Z) (w : World) :=
  @load _ _ _ tlb_rv64 user_memory_ops XLEN T va w.
Definition run_store (T : int_type) (va val : Z) (w : World) :=
  @store _ _ _ tlb_rv64 user_memory_ops XLEN T va val w.
Definition run_fetch (pc : Z) (w : World) :=
  @inst_fetch _ _ _ tlb_rv64 user_memory_ops XLEN pc w.

(** Host memory with the words [(uva, size, value)] written into zeroes. *)
Fixpoint host_of (words : list (Z * nat * Z)) : host_memory :=
  match words with
  | [] => fun _ => 0
  | (uva, n, v) :: rest => host_store (host_of rest) uva n v
  end.

Definition host_base : Z := 0x700000000000.

(** S1 with a PMA entry: machine mode, [mprv = 0], one segment of 4 KiB
    at pa 0x1000, and a PMA table that declares this very range readable
    and not writable. *)
Definition read_only_pma : pma_table :=
  [ {| pma_base := 0x1000; pma_length := 0x1000; pma_readable := true;
       pma_writable := false; pma_executable := false |} ].

Definition machine_mode_proc : processor :=
  {| mode := riscv_mode_M; mstatus_mprv := 0; mstatus_vm := riscv_vm_mbare;
     pdid := 0; sptbr := 0; badaddr := 0 |}.

Definition s1_world : World :=
  {| w_proc := machine_mode_proc;
     w_mmu := mmu_of read_only_pma
                [ {| seg_mpa := 0x1000; seg_uva := host_base;
                     seg_size := 0x1000 |} ];
     w_host := host_of [];
     w_val := 0;
     w_calls := [] |}.

(** S3: supervisor mode, sv39, [sptbr = 0x80000], the root page table at
    pa 0x80000000 whose entry 0 is a valid leaf (ppn 1, R+W+V) that maps
    va 0x1000 to pa 0x2000, and a data page at pa 0x2000.  The object
    that [val] of [load] is bound to holds 0x77. *)
Definition s3_proc : processor :=
  {| mode := riscv_mode_S; mstatus_mprv := 0; mstatus_vm := riscv_vm_sv39;
     pdid := 0; sptbr := 0x80000; badaddr := 0 |}.

Definition s3_segments : user_memory :=
  [ {| seg_mpa := 0x80000000; seg_uva := host_base; seg_size := 0x1000 |};
    {| seg_mpa := 0x2000; seg_uva := host_base + 0x10000;
       seg_size := 0x1000 |} ].

Definition s3_leaf : Z := Z.lor (Z.shiftl 1 pte_flag_bits)
                            (Z.lor pte_flag_V (Z.lor pte_flag_R pte_flag_W)).

Definition s3_world : World :=
  {| w_proc := s3_proc;
     w_mmu := mmu_of [] s3_segments;
     w_host := host_of [ (host_base, 8%nat, s3_leaf);
                         (host_base + 0x10000, 1%nat, 0x5a) ];
     w_val := 0x77;
     w_calls := [] |}.

(** S4: supervisor mode, sv39, root page table in page 0.  Entry 1 of
    the root (pa 8) points to the table in page 0 again, whose entry 0
    (pa 0) is the level-1 leaf: ppn 0x100000, R+X+V, the megapage
    va 0x4000_0000..0x4020_0000 -> pa 0x1_0000_0000.  With the tables in
    page 0 the addresses of both entries are the same whether or not the
    ppn of a table is shifted by [page_shift].  The megapage holds the
    instruction 0x0001 at its start and 0x00000013 at offset 0x1000. *)
Definition s4_proc : processor :=
  {| mode := riscv_mode_S; mstatus_mprv := 0; mstatus_vm := riscv_vm_sv39;
     pdid := 0; sptbr := 0; badaddr := 0 |}.

Definition megapage_uva : Z := host_base + 0x40000000.

Definition s4_segments : user_memory :=
  [ {| seg_mpa := 0; seg_uva := host_base; seg_size := 0x1000 |};
    {| seg_mpa := 0x100000000; seg_uva := megapage_uva;
       seg_size := 0x200000 |} ].

Definition s4_pointer : Z := pte_flag_V.
Definition s4_leaf : Z := Z.lor (Z.shiftl 0x100000 pte_flag_bits)
                            (Z.lor pte_flag_V (Z.lor pte_flag_R pte_flag_X)).

Definition s4_world : World :=
  {| w_proc := s4_proc;
     w_mmu := mmu_of [] s4_segments;
     w_host := host_of [ (host_base + 8, 8%nat, s4_pointer);
                         (host_base, 8%nat, s4_leaf);
                         (megapage_uva, 2%nat, 0x0001);
                         (megapage_uva + 0x1000, 4%nat, 0x00000013) ];
     w_val := 0;
     w_calls := [] |}.

End Scenario.

(** ** What a method leaves untouched *)

Section Frames.

Context {tlb_type pma_type memory_type : Type}.

Local Abbreviation World := (world tlb_type pma_type memory_type).

(** A call that is on the TLB [t], or on the memory. *)
Definition call_on (t : tlb_ref) (c : call) : Prop :=
  match c with
  | call_lookup t' _ _ _ => t' = t
  | call_insert t' _ _ _ _ _ => t' = t
  | call_mpa_to_uva _ => True
  end.

(** [w'] differs from [w] at most in the TLB [t] and in calls on [t] and
    on the memory, added at the end. *)
Record frame (t : tlb_ref) (w w' : World) : Prop := {
  frame_proc : w_proc w' = w_proc w;
  frame_host : w_host w' = w_host w;
  frame_val : w_val w' = w_val w;
  frame_pma : pma (w_mmu w') = pma (w_mmu w);
  frame_mem : mem (w_mmu w') = mem (w_mmu w);
  frame_tlb : forall t', t' <> t ->
                get_tlb t' (w_mmu w') = get_tlb t' (w_mmu w);
  frame_calls : exists cs, w_calls w' = w_calls w ++ cs /\ Forall (call_on t) cs
}.

(** [m] always returns, within the frame of [t]. *)
Definition returns_in {A} (t : tlb_ref) (m : M A) : Prop :=
  forall w : World, exists a w', m w = (returns a, w') /\ frame t w w'.

(** The world with another PMA table. *)
Definition with_pma (p : pma_type) (w : World) : World :=
  with_mmu (set_pma p (w_mmu w)) w.

(** [m] runs the same way whatever the PMA table is. *)
Definition pma_blind {A} (m : M A) : Prop :=
  forall (p : pma_type) (w : World),
    m (with_pma p w) = (fst (m w), with_pma p (snd (m w))).

(** From [w] to [w'] the MMU has stayed as it was, TLBs included, and
    the only calls made ask the memory for the address [va] itself. *)
Definition untranslated (va : Z) (w w' : World) : Prop :=
  w_mmu w' = w_mmu w
  /\ exists cs, w_calls w' = w_calls w ++ cs
               /\ Forall (fun c => c = call_mpa_to_uva va) cs.

(** The method left through [longjmp] with a misaligned_* cause. *)
Definition raised_misaligned {A} (r : outcome A * World) : bool :=
  match fst r with
  | longjmp c => is_misaligned_cause c
  | returns _ => false
  end.

End Frames.

(** ** The command line and the environment in [rv-sim.cc] *)

Module Sim.

(** The protection bits of [mmap], from the <sys/mman.h> of the host. *)
Definition PROT_READ : Z := 1.
Definition PROT_WRITE : Z := 2.
Definition PROT_EXEC : Z := 4.

(** [rv_emulator::elf_p_flags_mmap]. *)
Definition elf_p_flags_mmap (v : Z) : Z :=
  let prot := 0 in
  let prot := if negb (Z.land v Elf.PF_X =? 0)
              then Z.lor prot PROT_EXEC else prot in
  let prot := if negb (Z.land v Elf.PF_W =? 0)
              then Z.lor prot PROT_WRITE else prot in
  let prot := if negb (Z.land v Elf.PF_R =? 0)
              then Z.lor prot PROT_READ else prot in
  prot.

(** A C string is given by the characters before its terminator: the
    character read at the end of the string, and past it, is NUL. *)
Definition NUL : Ascii.ascii := Ascii.zero.

Definition char_at (s : string) : Ascii.ascii :=
  match s with EmptyString => NUL | String c _ => c end.

Definition advance (s : string) : string :=
  match s with EmptyString => EmptyString | String _ rest => rest end.

(** [strlen] and [strncmp] of the C library. *)
Fixpoint strlen (s : string) : nat :=
  match s with
  | EmptyString => 0
  | String c rest => if Ascii.eqb c NUL then 0 else S (strlen rest)
  end.

Fixpoint strncmp (s1 s2 : string) (n : nat) : Z :=
  match n with
  | O => 0
  | S n' =>
      if negb (Ascii.eqb (char_at s1) (char_at s2)) then
        Z.of_nat (Ascii.nat_of_ascii (char_at s1))
        - Z.of_nat (Ascii.nat_of_ascii (char_at s2))
      else if Ascii.eqb (char_at s1) NUL then 0
      else strncmp (advance s1) (advance s2) n'
  end.

(** [allowed_env_vars], without its [nullptr] at the end. *)
Definition allowed_env_vars : list string := ["TERM="%string].

(** The loop of [allow_env_var] from [envp] on. *)
Fixpoint allow_env_var_from (envp : list string) (var : string) : bool :=
  match envp with
  | [] => false
  | e :: rest =>
      if strncmp e var (strlen e) =? 0 then true
      else allow_env_var_from rest var
  end.

(** [allow_env_var]. *)
Definition allow_env_var (var : string) : bool :=
  allow_env_var_from allowed_env_vars var.

(** The loop of lines 258-262 of [parse_commandline] over [envp], with
    [host_env] as found. *)
Fixpoint filter_host_env (envp host_env : list string) : list string :=
  match envp with
  | [] => host_env
  | env :: rest =>
      if allow_env_var env then filter_host_env rest (host_env ++ [env])
      else filter_host_env rest host_env
  end.

(** How [parse_commandline] ends: [exit (status)] after the usage text,
    with or without the line about the number of arguments before it;
    or it returns with [elf_filename], [host_cmdline] and [host_env] set;
    or it has read [result.first[0]] of an empty vector. *)
Inductive parsed : Type :=
  | parse_exit (status : Z) (wrong_number_printed : bool)
  | parse_done (elf_filename : string) (host_cmdline host_env : list string)
  | parse_out_of_range.

(** [parse_commandline] from line 237 on: [result] is what
    [cmdline_option::process_options] returned, [help_or_error] what the
    option handlers left, [host_cmdline] and [host_env] the vectors as
    found.  The loading of the ELF file at the end is not modelled. *)
Definition parse_commandline_after_options
    (result : list string * bool) (help_or_error : bool)
    (envp host_cmdline host_env : list string) : parsed :=
  let wrong_number :=
    if negb (snd result) then false
    else (length (fst result) <? 1)%nat && negb help_or_error in
  let help_or_error :=
    if negb (snd result) then true
    else if wrong_number then true else help_or_error in
  if help_or_error then parse_exit 9 wrong_number
  else
    match fst result with
    | [] => parse_out_of_range
    | first :: _ =>
        parse_done first (host_cmdline ++ fst result)
                   (filter_host_env envp host_env)
    end.

End Sim.

(** ** More machines *)

Module Cases.

(** Supervisor mode with an encoding of [mstatus.vm] that
    [translate_addr] has no case for; one page mapped at pa 0x1000. *)
Definition other_vm_world : Scenario.World :=
  {| w_proc := {| mode := riscv_mode_S; mstatus_mprv := 0;
                  mstatus_vm := riscv_vm_other 1;
                  pdid := 0; sptbr := 0; badaddr := 0 |};
     w_mmu := Scenario.mmu_of []
                [ {| seg_mpa := 0x1000; seg_uva := Scenario.host_base;
                     seg_size := 0x1000 |} ];
     w_host := Scenario.host_of [];
     w_val := 0;
     w_calls := [] |}.

(** The world of S3 with the data TLB already holding the entry of
    va 0x1000: ppn 2, flags R+W+V. *)
Definition s3_hit_world : Scenario.World :=
  {| w_proc := Scenario.s3_proc;
     w_mmu := {| l1_dtlb := fst (tagged_tlb_insert tlb_flushed 0 0 0x1000 7 2);
                 l1_itlb := tlb_flushed;
                 pma := [];
                 mem := Scenario.s3_segments |};
     w_host := w_host Scenario.s3_world;
     w_val := 0;
     w_calls := [] |}.

(** A leaf PTE of a 4 KiB page: ppn 2, R+W+V. *)
Definition small_leaf : Z :=
  Z.lor (Z.shiftl 2 pte_flag_bits)
        (Z.lor pte_flag_V (Z.lor pte_flag_R pte_flag_W)).

(** Supervisor mode, sv39, root table in page 0 whose entry 0 is valid
    and has none of R, W, X. *)
Definition pointer_world : Scenario.World :=
  {| w_proc := Scenario.s4_proc;
     w_mmu := Scenario.mmu_of []
                [ {| seg_mpa := 0; seg_uva := Scenario.host_base;
                     seg_size := 0x1000 |} ];
     w_host := Scenario.host_of [ (Scenario.host_base, 8%nat, pte_flag_V) ];
     w_val := 0;
     w_calls := [] |}.

End Cases.

(** * Properties *)

(** ** Bits *)

Lemma land_1_testbit (x : Z) : (Z.land x 1 =? 0) = negb (Z.testbit x 0).
Proof.
  rewrite Z.bit0_odd.
  change 1 with (Z.ones 1). rewrite Z.land_ones by lia.
  change (2 ^ 1) with 2. rewrite Zmod_odd.
  destruct (Z.odd x); reflexivity.
Qed.

Lemma pte_fault_bits (flags : Z) :
  pte_fault flags =
  negb (Z.testbit flags pte_shift_V)
  || (negb (Z.testbit flags pte_shift_R) && Z.testbit flags pte_shift_W).
Proof.
  unfold pte_fault. rewrite land_1_testbit, negb_involutive.
  rewrite Z.lor_spec, Z.land_spec, !Z.shiftr_spec by lia.
  rewrite !Z.lnot_spec by (unfold pte_shift_V, pte_shift_R; lia).
  reflexivity.
Qed.

Lemma land_flag_testbit (flags shift : Z) :
  0 <= shift ->
  (Z.land flags (Z.shiftl 1 shift) =? 0) = negb (Z.testbit flags shift).
Proof.
  intros Hs. destruct (Z.testbit flags shift) eqn:Hb; simpl.
  - apply Z.eqb_neq. intros E.
    apply (f_equal (fun z => Z.testbit z shift)) in E.
    rewrite Z.land_spec, Hb, Z.shiftl_1_l, Z.pow2_bits_true, Z.bits_0 in E by lia.
    discriminate E.
  - apply Z.eqb_eq, Z.bits_inj'. intros n Hn.
    rewrite Z.land_spec, Z.bits_0, Z.shiftl_1_l, Z.pow2_bits_eqb by lia.
    destruct (Z.eqb_spec shift n) as [E | _]; [subst n; rewrite Hb |];
      auto using andb_false_r.
Qed.

Lemma pte_leaf_bits (flags : Z) :
  pte_leaf flags =
  Z.testbit flags pte_shift_R || Z.testbit flags pte_shift_X.
Proof.
  unfold pte_leaf. rewrite Z.land_lor_distr_r.
  pose proof (land_flag_testbit flags pte_shift_R ltac:(unfold pte_shift_R; lia)) as HR.
  pose proof (land_flag_testbit flags pte_shift_X ltac:(unfold pte_shift_X; lia)) as HX.
  fold pte_flag_R in HR. fold pte_flag_X in HX.
  destruct (Z.eqb_spec (Z.land flags pte_flag_R) 0) as [ER | ER];
    destruct (Z.eqb_spec (Z.land flags pte_flag_X) 0) as [EX | EX];
    rewrite <- (negb_involutive (Z.testbit flags pte_shift_R)), <- HR;
    rewrite <- (negb_involutive (Z.testbit flags pte_shift_X)), <- HX; simpl.
  - rewrite ER, EX. reflexivity.
  - apply negb_true_iff, Z.eqb_neq. rewrite Z.lor_eq_0_iff. tauto.
  - apply negb_true_iff, Z.eqb_neq. rewrite Z.lor_eq_0_iff. tauto.
  - apply negb_true_iff, Z.eqb_neq. rewrite Z.lor_eq_0_iff. tauto.
Qed.

(** ** Frames of the methods *)

Section MMU_facts.

Context {tlb_type pma_type memory_type : Type}.
Context {tlb_ops : TLB tlb_type} {mem_ops : MEMORY memory_type}.
Variable XLEN : Z.

Local Abbreviation World := (world tlb_type pma_type memory_type).
Local Abbreviation returns_within t m :=
  (@returns_in tlb_type pma_type memory_type _ t m).

Lemma frame_refl t (w : World) : frame t w w.
Proof.
  constructor; auto. exists []. split; [symmetry; apply app_nil_r | constructor].
Qed.

Lemma frame_trans t (w1 w2 w3 : World) :
  frame t w1 w2 -> frame t w2 w3 -> frame t w1 w3.
Proof.
  intros [P1 H1 V1 A1 Me1 T1 (cs1 & C1 & F1)] [P2 H2 V2 A2 Me2 T2 (cs2 & C2 & F2)].
  constructor; try congruence.
  - intros t' Ht. rewrite T2, T1; auto.
  - exists (cs1 ++ cs2). split.
    + rewrite C2, C1. symmetry. apply app_assoc.
    + apply Forall_app. auto.
Qed.

Lemma get_set_tlb_other t t' tlb (m : mmu tlb_type pma_type memory_type) :
  t' <> t -> get_tlb t' (set_tlb t tlb m) = get_tlb t' m.
Proof. destruct t, t'; simpl; congruence. Qed.

Lemma frame_with_call t c (w : World) : call_on t c -> frame t w (with_call c w).
Proof.
  intros Hc. constructor; auto. exists [c]. split; [reflexivity |].
  constructor; [exact Hc | constructor].
Qed.

Lemma frame_set_tlb t tlb (w : World) :
  frame t w (with_mmu (set_tlb t tlb (w_mmu w)) w).
Proof.
  constructor; simpl; auto.
  - destruct t; reflexivity.
  - destruct t; reflexivity.
  - intros t' Ht. apply get_set_tlb_other, Ht.
  - exists []. split; [symmetry; apply app_nil_r | constructor].
Qed.

(** *** Composition *)

Lemma returns_in_ret {A} t (a : A) : returns_within t (ret a).
Proof. intros w. exists a, w. split; [reflexivity | apply frame_refl]. Qed.

Lemma returns_in_bind {A B} t (m : M A) (k : A -> M B) :
  returns_within t m ->
  (forall a, returns_within t (k a)) ->
  returns_within t (bind m k).
Proof.
  intros Hm Hk w. destruct (Hm w) as (a & w1 & E1 & F1).
  destruct (Hk a w1) as (b & w2 & E2 & F2).
  exists b, w2. split.
  - unfold bind. rewrite E1. exact E2.
  - eapply frame_trans; eassumption.
Qed.

Lemma returns_in_get_proc t : returns_within t get_proc.
Proof. intros w. eexists _, w. split; [reflexivity | apply frame_refl]. Qed.

Lemma returns_in_lookup_in t pdid asid va :
  returns_within t (lookup_in t pdid asid va).
Proof.
  intros w. eexists _, _. split; [reflexivity |].
  apply frame_with_call. reflexivity.
Qed.

Lemma returns_in_insert_in t pdid asid va flags ppn :
  returns_within t (insert_in t pdid asid va flags ppn).
Proof.
  intros w. unfold insert_in.
  destruct (tlb_insert (get_tlb t (w_mmu w)) pdid asid va flags ppn) as [tlb' ent].
  eexists _, _. split; [reflexivity |].
  eapply frame_trans; [apply frame_set_tlb | apply frame_with_call; reflexivity].
Qed.

Lemma returns_in_mem_mpa_to_uva t mpa :
  returns_within t (mem_mpa_to_uva mpa).
Proof.
  intros w. eexists _, _. split; [reflexivity |].
  apply frame_with_call. exact I.
Qed.

Lemma returns_in_deref t uva n :
  returns_within t (deref uva n).
Proof. intros w. eexists _, w. split; [reflexivity | apply frame_refl]. Qed.

Ltac returns_in_step :=
  match goal with
  | |- returns_in _ (bind _ _) => apply returns_in_bind; [| intros ?]
  | |- returns_in _ (ret _) => apply returns_in_ret
  | |- returns_in _ get_proc => apply returns_in_get_proc
  | |- returns_in _ (lookup_in _ _ _ _) => apply returns_in_lookup_in
  | |- returns_in _ (insert_in _ _ _ _ _ _) => apply returns_in_insert_in
  | |- returns_in _ (mem_mpa_to_uva _) => apply returns_in_mem_mpa_to_uva
  | |- returns_in _ (deref _ _) => apply returns_in_deref
  | |- returns_in _ (if ?b then _ else _) => destruct b
  | |- returns_in _ (match ?x with _ => _ end) => destruct x
  end.

Lemma returns_in_walk_levels t ptm va n ppn pte :
  returns_within t (walk_levels XLEN ptm va n ppn pte).
Proof.
  revert ppn pte. induction n as [| level IH]; intros ppn pte; simpl.
  - apply returns_in_ret.
  - repeat returns_in_step. apply IH.
Qed.

Lemma returns_in_walk_page_table t ptm va :
  returns_within t (walk_page_table XLEN ptm va).
Proof.
  unfold walk_page_table. returns_in_step; [returns_in_step |].
  apply returns_in_walk_levels.
Qed.

Lemma returns_in_page_translate_addr t ptm va :
  returns_within t (page_translate_addr XLEN ptm va t).
Proof.
  unfold page_translate_addr, page_translate_addr_tlb_miss.
  repeat first [apply returns_in_walk_page_table | returns_in_step].
Qed.

Lemma returns_in_translate_addr (fetch : bool) va tlb_ent :
  returns_within (if fetch then ref_l1_itlb else ref_l1_dtlb)
                 (translate_addr XLEN fetch va tlb_ent).
Proof.
  unfold translate_addr. returns_in_step; [returns_in_step |].
  destruct (mode a), (mstatus_mprv a =? 0), (mstatus_vm a);
    try apply returns_in_ret; apply returns_in_page_translate_addr.
Qed.

(** *** The three accesses *)

(** The common part of [inst_fetch], [load] and [store] after the
    alignment test: the translation and the lookup of the host address,
    then the rest [k] of the method. *)
Lemma translate_then_uva {B} va (k : Z -> M B) (w : World) :
  exists uva w2,
    frame ref_l1_dtlb w w2 /\
    bind (translate_addr XLEN false va None)
         (fun r => bind (if illegal (fst r) then ret (fst r)
                         else mem_mpa_to_uva (fst r)) k) w
    = k uva w2.
Proof.
  destruct (returns_in_translate_addr false va None w) as (r & w1 & E & F).
  unfold bind. rewrite E. destruct (illegal (fst r)).
  - exists (fst r), w1. split; [exact F | reflexivity].
  - eexists _, _. split; [| reflexivity].
    eapply frame_trans; [exact F | apply frame_with_call; exact I].
Qed.

Lemma load_misaligned T va (w : World) :
  misaligned T va = true ->
  load XLEN T va w
  = (longjmp riscv_cause_misaligned_load,
     with_proc (set_badaddr va (w_proc w)) w).
Proof. intros H. unfold load. rewrite H. reflexivity. Qed.

Lemma store_misaligned T va val (w : World) :
  misaligned T va = true ->
  store XLEN T va val w
  = (longjmp riscv_cause_misaligned_store,
     with_proc (set_badaddr va (w_proc w)) w).
Proof. intros H. unfold store. rewrite H. reflexivity. Qed.

Lemma inst_fetch_misaligned pc (w : World) :
  misaligned u16 pc = true ->
  inst_fetch XLEN pc w
  = (longjmp riscv_cause_misaligned_fetch,
     with_proc (set_badaddr pc (w_proc w)) w).
Proof. intros H. unfold inst_fetch. rewrite H. reflexivity. Qed.

Lemma load_aligned T va (w : World) :
  misaligned T va = false ->
  exists w2, frame ref_l1_dtlb w w2 /\
    (load XLEN T va w
     = (longjmp riscv_cause_fault_load,
        with_proc (set_badaddr va (w_proc w2)) w2)
     \/ exists v, load XLEN T va w = (returns tt, with_val v w2)).
Proof.
  intros H. unfold load. rewrite H. cbv zeta.
  match goal with
  | |- context [bind _ (fun r => bind _ ?k) w] =>
      destruct (translate_then_uva va k w) as (uva & w2 & F & E)
  end.
  exists w2. split; [exact F |]. rewrite E.
  destruct (illegal uva); [left | right; eexists]; reflexivity.
Qed.

Lemma store_aligned T va val (w : World) :
  misaligned T va = false ->
  exists w2, frame ref_l1_dtlb w w2 /\
    (store XLEN T va val w
     = (longjmp riscv_cause_fault_store,
        with_proc (set_badaddr va (w_proc w2)) w2)
     \/ exists h, store XLEN T va val w = (returns tt, with_host h w2)).
Proof.
  intros H. unfold store. rewrite H. cbv zeta.
  match goal with
  | |- context [bind _ (fun r => bind _ ?k) w] =>
      destruct (translate_then_uva va k w) as (uva & w2 & F & E)
  end.
  exists w2. split; [exact F |]. rewrite E.
  destruct (illegal uva); [left | right; eexists]; reflexivity.
Qed.

Lemma inst_fetch_aligned pc (w : World) :
  misaligned u16 pc = false ->
  exists w2, frame ref_l1_dtlb w w2 /\
    (inst_fetch XLEN pc w
     = (longjmp riscv_cause_fault_fetch,
        with_proc (set_badaddr pc (w_proc w2)) w2)
     \/ exists inst, inst_fetch XLEN pc w = (returns inst, w2)).
Proof.
  intros H. unfold inst_fetch. rewrite H. cbv zeta.
  match goal with
  | |- context [bind _ (fun r => bind _ ?k) w] =>
      destruct (translate_then_uva pc k w) as (uva & w2 & F & E)
  end.
  exists w2. split; [exact F |]. rewrite E.
  destruct (illegal uva); [left; reflexivity | right].
  unfold riscv_inst_fetch, bind, deref, ret.
  destruct (Z.land (host_load (w_host w2) uva 2) 3 =? 3); eexists; reflexivity.
Qed.

(** *** Alignment *)

Lemma misaligned_land T va :
  misaligned T va = negb (Z.land va (sizeof T - 1) =? 0).
Proof. reflexivity. Qed.

(** C6: an access of width [sizeof T] at an address that is not
    [sizeof T]-aligned (2-aligned for a fetch) leaves through [longjmp]
    with the misaligned cause of its kind, and it does so before any
    translation: the world is the one it started in but for
    [proc.badaddr], no TLB or memory call has been made.  At an aligned
    address, [va & (sizeof T - 1) = 0], no access raises a misaligned
    cause. *)
Theorem misaligned_exactly_when_unaligned T va val (w : World) :
  (Z.land va (sizeof T - 1) <> 0 ->
     load XLEN T va w
     = (longjmp riscv_cause_misaligned_load,
        with_proc (set_badaddr va (w_proc w)) w)
     /\ store XLEN T va val w
        = (longjmp riscv_cause_misaligned_store,
           with_proc (set_badaddr va (w_proc w)) w))
  /\ (Z.land va (sizeof T - 1) = 0 ->
        raised_misaligned (load XLEN T va w) = false
        /\ raised_misaligned (store XLEN T va val w) = false)
  /\ (Z.land va (sizeof u16 - 1) <> 0 ->
        inst_fetch XLEN va w
        = (longjmp riscv_cause_misaligned_fetch,
           with_proc (set_badaddr va (w_proc w)) w))
  /\ (Z.land va (sizeof u16 - 1) = 0 ->
        raised_misaligned (inst_fetch XLEN va w) = false).
Proof.
  repeat split.
  - apply load_misaligned. rewrite misaligned_land.
    apply negb_true_iff, Z.eqb_neq. assumption.
  - apply store_misaligned. rewrite misaligned_land.
    apply negb_true_iff, Z.eqb_neq. assumption.
  - assert (Ha : misaligned T va = false)
      by (rewrite misaligned_land; apply negb_false_iff, Z.eqb_eq; assumption).
    destruct (load_aligned T va w Ha) as (w2 & _ & [E | [v E]]);
      rewrite E; reflexivity.
  - assert (Ha : misaligned T va = false)
      by (rewrite misaligned_land; apply negb_false_iff, Z.eqb_eq; assumption).
    destruct (store_aligned T va val w Ha) as (w2 & _ & [E | [h E]]);
      rewrite E; reflexivity.
  - intros H. apply inst_fetch_misaligned. rewrite misaligned_land.
    apply negb_true_iff, Z.eqb_neq. assumption.
  - intros H.
    assert (Ha : misaligned u16 va = false)
      by (rewrite misaligned_land; apply negb_false_iff, Z.eqb_eq; assumption).
    destruct (inst_fetch_aligned va w Ha) as (w2 & _ & [E | [i E]]);
      rewrite E; reflexivity.
Qed.

(** *** Faults *)

(** C7: when [inst_fetch], [load] or [store] leaves through [longjmp],
    the processor handed to the trap continuation has [badaddr] equal to
    the address of the access, and the cause is the misaligned or the
    fault cause of that kind of access. *)
Theorem fault_records_badaddr T va val c (w w' : World) :
  (inst_fetch XLEN va w = (longjmp c, w') ->
     badaddr (w_proc w') = va
     /\ (c = riscv_cause_misaligned_fetch \/ c = riscv_cause_fault_fetch))
  /\ (load XLEN T va w = (longjmp c, w') ->
        badaddr (w_proc w') = va
        /\ (c = riscv_cause_misaligned_load \/ c = riscv_cause_fault_load))
  /\ (store XLEN T va val w = (longjmp c, w') ->
        badaddr (w_proc w') = va
        /\ (c = riscv_cause_misaligned_store \/ c = riscv_cause_fault_store)).
Proof.
  split; [| split]; intros H.
  - destruct (misaligned u16 va) eqn:Ha.
    + rewrite (inst_fetch_misaligned va w Ha) in H. inversion H; subst. auto.
    + destruct (inst_fetch_aligned va w Ha) as (w2 & _ & [E | [i E]]);
        rewrite E in H; inversion H; subst; auto.
  - destruct (misaligned T va) eqn:Ha.
    + rewrite (load_misaligned T va w Ha) in H. inversion H; subst. auto.
    + destruct (load_aligned T va w Ha) as (w2 & _ & [E | [v E]]);
        rewrite E in H; inversion H; subst; auto.
  - destruct (misaligned T va) eqn:Ha.
    + rewrite (store_misaligned T va val w Ha) in H. inversion H; subst. auto.
    + destruct (store_aligned T va val w Ha) as (w2 & _ & [E | [h E]]);
        rewrite E in H; inversion H; subst; auto.
Qed.

(** C10: a [load] that leaves through [longjmp] has not written [val]:
    the object bound to the reference parameter is the one the caller
    passed, and the cause is [misaligned_load] or [fault_load]. *)
Theorem load_fault_keeps_val T va c (w w' : World) :
  load XLEN T va w = (longjmp c, w') ->
  w_val w' = w_val w
  /\ (c = riscv_cause_misaligned_load \/ c = riscv_cause_fault_load).
Proof.
  intros H. destruct (misaligned T va) eqn:Ha.
  - rewrite (load_misaligned T va w Ha) in H. inversion H; subst. auto.
  - destruct (load_aligned T va w Ha) as (w2 & F & [E | [v E]]);
      rewrite E in H; inversion H; subst.
    split; [apply (frame_val _ _ _ F) | auto].
Qed.

(** *** Translation *)

Lemma untranslated_none va (w w' : World) :
  w_mmu w' = w_mmu w -> w_calls w' = w_calls w -> untranslated va w w'.
Proof.
  intros Hm Hc. split; [exact Hm |]. exists []. rewrite Hc.
  split; [symmetry; apply app_nil_r | constructor].
Qed.

Lemma untranslated_one va (w w' : World) :
  w_mmu w' = w_mmu w ->
  w_calls w' = w_calls w ++ [call_mpa_to_uva va] ->
  untranslated va w w'.
Proof.
  intros Hm Hc. split; [exact Hm |]. exists [call_mpa_to_uva va].
  split; [exact Hc | repeat constructor].
Qed.

Lemma translate_addr_bare (fetch : bool) va tlb_ent (w : World) :
  (mode (w_proc w) = riscv_mode_M /\ mstatus_mprv (w_proc w) = 0)
  \/ mstatus_vm (w_proc w) = riscv_vm_mbare ->
  translate_addr XLEN fetch va tlb_ent w = (returns (va, tlb_ent), w).
Proof.
  unfold translate_addr, bind, get_proc, ret.
  intros [[Hm Hp] | Hv].
  - rewrite Hm, Hp. reflexivity.
  - rewrite Hv. destruct (mode (w_proc w)), (mstatus_mprv (w_proc w) =? 0);
      reflexivity.
Qed.

(** C8: in machine mode with [mprv = 0], and with [vm = mbare] in any
    mode, [translate_addr] returns the virtual address itself and leaves
    the world as it was: neither TLB is looked up or written, no
    page-table entry is looked for, [tlb_ent] stays as passed.  A load,
    a store or a fetch made then leaves the TLBs as they were and calls
    nothing but the memory, for the address [va]. *)
Theorem translate_addr_identity (fetch : bool) T va val tlb_ent (w : World) :
  (mode (w_proc w) = riscv_mode_M /\ mstatus_mprv (w_proc w) = 0)
  \/ mstatus_vm (w_proc w) = riscv_vm_mbare ->
  translate_addr XLEN fetch va tlb_ent w = (returns (va, tlb_ent), w)
  /\ untranslated va w (snd (load XLEN T va w))
  /\ untranslated va w (snd (store XLEN T va val w))
  /\ untranslated va w (snd (inst_fetch XLEN va w)).
Proof.
  intros H. split; [apply translate_addr_bare, H |].
  pose proof (translate_addr_bare false va None w H) as E.
  split; [| split].
  - unfold load. destruct (misaligned T va);
      [apply untranslated_none; reflexivity |].
    cbv zeta. unfold bind at 1. rewrite E. cbn [fst].
    unfold bind, ret, mem_mpa_to_uva.
    destruct (illegal va) eqn:Hi; [rewrite Hi; apply untranslated_none; reflexivity |].
    destruct (illegal (mpa_to_uva (mem (w_mmu w)) va));
      apply untranslated_one; reflexivity.
  - unfold store. destruct (misaligned T va);
      [apply untranslated_none; reflexivity |].
    cbv zeta. unfold bind at 1. rewrite E. cbn [fst].
    unfold bind, ret, mem_mpa_to_uva.
    destruct (illegal va) eqn:Hi; [rewrite Hi; apply untranslated_none; reflexivity |].
    destruct (illegal (mpa_to_uva (mem (w_mmu w)) va));
      apply untranslated_one; reflexivity.
  - unfold inst_fetch. destruct (misaligned u16 va);
      [apply untranslated_none; reflexivity |].
    cbv zeta. unfold bind at 1. rewrite E. cbn [fst].
    unfold bind, ret, mem_mpa_to_uva.
    destruct (illegal va) eqn:Hi; [rewrite Hi; apply untranslated_none; reflexivity |].
    destruct (illegal (mpa_to_uva (mem (w_mmu w)) va));
      [apply untranslated_one; reflexivity |].
    unfold riscv_inst_fetch, bind, deref, ret. cbn [w_host with_call].
    destruct (Z.land _ 3 =? 3); apply untranslated_one; reflexivity.
Qed.

End MMU_facts.

(** ** The page-table walker *)

Section Walker_facts.

Context {tlb_type pma_type memory_type : Type}.
Context {tlb_ops : TLB tlb_type} {mem_ops : MEMORY memory_type}.
Variable XLEN : Z.

Local Abbreviation World := (world tlb_type pma_type memory_type).

(** The body of the loop, by the flag bits of the PTE: the two fault
    tests first and in this order, then the leaf test. *)
Lemma walk_pte_ordered ptm va shift pte :
  walk_pte XLEN ptm va shift pte =
  if negb (Z.testbit (pte_flags pte) pte_shift_V) then walk_out
  else if negb (Z.testbit (pte_flags pte) pte_shift_R)
          && Z.testbit (pte_flags pte) pte_shift_W then walk_out
  else if Z.testbit (pte_flags pte) pte_shift_R
          || Z.testbit (pte_flags pte) pte_shift_X
  then walk_return
         (wrap addr_bits
            (pte_ppn_shifted ptm pte + Z.land va (Z.shiftl 1 shift - 1)))
  else walk_step (UX XLEN (pte_ppn ptm pte)).
Proof.
  unfold walk_pte. rewrite pte_fault_bits, pte_leaf_bits.
  destruct (Z.testbit (pte_flags pte) pte_shift_V),
           (Z.testbit (pte_flags pte) pte_shift_R),
           (Z.testbit (pte_flags pte) pte_shift_W); reflexivity.
Qed.

(** One turn of the loop of [walk_page_table] when the PTE has a host
    address. *)
Lemma walk_levels_turn ptm va level ppn pte0 (w : World) :
  let shift := bits ptm * Z.of_nat level + page_shift in
  let vpn := Z.land (Z.shiftr va shift) (Z.shiftl 1 (bits ptm) - 1) in
  let pte_mpa := UX XLEN (ppn + vpn * sizeof_pte ptm) in
  let pte_uva := mpa_to_uva (mem (w_mmu w)) pte_mpa in
  let pte := host_load (w_host w) pte_uva (Z.to_nat (sizeof_pte ptm)) in
  let w1 := with_call (call_mpa_to_uva pte_mpa) w in
  pte_uva <> illegal_address ->
  walk_levels XLEN ptm va (S level) ppn pte0 w =
  match walk_pte XLEN ptm va shift pte with
  | walk_out => (returns (illegal_address, pte), w1)
  | walk_return pa => (returns (pa, pte), w1)
  | walk_step ppn' => walk_levels XLEN ptm va level ppn' 0 w1
  end.
Proof.
  intros shift vpn pte_mpa pte_uva pte w1 Huva.
  cbn [walk_levels]. unfold bind, mem_mpa_to_uva, deref, ret.
  fold shift. fold vpn. fold pte_mpa. fold pte_uva. fold w1.
  apply Z.eqb_neq in Huva. rewrite Huva.
  change (w_host w1) with (w_host w). fold pte.
  destruct (walk_pte XLEN ptm va shift pte); reflexivity.
Qed.

(** C9, as the code has it: the PTE that the walker has read makes it
    leave through [out] at once exactly when V = 0, or R = 0 and W = 1.
    In the turn of the loop that reads the PTE these tests come first, V
    before R and W, and the leaf test (R or X) is made only on a PTE that
    passed both.  A PTE that passes all three sends the walker to the
    next level; at level 0 there is none, so that a PTE with V = 1 and
    R = W = X = 0 read there makes the walk fail as well: it falls off
    the bottom and returns [illegal_address]. *)
Theorem walk_fault_tests ptm va level ppn pte0 (w : World) :
  let shift := bits ptm * Z.of_nat level + page_shift in
  let vpn := Z.land (Z.shiftr va shift) (Z.shiftl 1 (bits ptm) - 1) in
  let pte_mpa := UX XLEN (ppn + vpn * sizeof_pte ptm) in
  let pte_uva := mpa_to_uva (mem (w_mmu w)) pte_mpa in
  let pte := host_load (w_host w) pte_uva (Z.to_nat (sizeof_pte ptm)) in
  let V := Z.testbit (pte_flags pte) pte_shift_V in
  let R := Z.testbit (pte_flags pte) pte_shift_R in
  let W := Z.testbit (pte_flags pte) pte_shift_W in
  let X := Z.testbit (pte_flags pte) pte_shift_X in
  let w1 := with_call (call_mpa_to_uva pte_mpa) w in
  (walk_pte XLEN ptm va shift pte = walk_out
   <-> V = false \/ (R = false /\ W = true))
  /\ (pte_uva <> illegal_address ->
      walk_levels XLEN ptm va (S level) ppn pte0 w =
      if negb V then (returns (illegal_address, pte), w1)
      else if negb R && W then (returns (illegal_address, pte), w1)
      else if R || X then
        (returns (wrap addr_bits
                    (pte_ppn_shifted ptm pte
                     + Z.land va (Z.shiftl 1 shift - 1)), pte), w1)
      else walk_levels XLEN ptm va level (UX XLEN (pte_ppn ptm pte)) 0 w1)
  /\ (pte_uva <> illegal_address ->
      level = 0%nat ->
      V = true -> R = false -> W = false -> X = false ->
      walk_pte XLEN ptm va shift pte <> walk_out
      /\ walk_levels XLEN ptm va (S level) ppn pte0 w
         = (returns (illegal_address, 0), w1)).
Proof.
  intros shift vpn pte_mpa pte_uva pte V R W X w1.
  assert (Hturn : pte_uva <> illegal_address ->
            walk_levels XLEN ptm va (S level) ppn pte0 w =
            if negb V then (returns (illegal_address, pte), w1)
            else if negb R && W then (returns (illegal_address, pte), w1)
            else if R || X then
              (returns (wrap addr_bits
                          (pte_ppn_shifted ptm pte
                           + Z.land va (Z.shiftl 1 shift - 1)), pte), w1)
            else walk_levels XLEN ptm va level
                   (UX XLEN (pte_ppn ptm pte)) 0 w1).
  { intros Huva.
    rewrite (walk_levels_turn ptm va level ppn pte0 w Huva).
    fold shift. fold vpn. fold pte_mpa. fold pte_uva. fold pte. fold w1.
    rewrite walk_pte_ordered. fold V R W X.
    destruct V, R, W, X; reflexivity. }
  split; [| split].
  - rewrite walk_pte_ordered. fold V R W X.
    destruct V, R, W; simpl; split;
      try (intros [H | [H1 H2]]; discriminate);
      try (intros _; tauto);
      try reflexivity;
      destruct X; discriminate.
  - exact Hturn.
  - intros Huva Hlevel HV HR HW HX. split.
    + rewrite walk_pte_ordered. fold V R W X. rewrite HV, HR, HW, HX.
      discriminate.
    + rewrite (Hturn Huva), HV, HR, HW, HX, Hlevel. reflexivity.
Qed.

(** The offset mask of the TLB hit path. *)
Lemma lnot_page_mask : Z.lnot page_mask = 4095.
Proof. reflexivity. Qed.

(** A TLB hit: the address is made of the ppn of the entry and of the low
    twelve bits of [va], whatever the level of the leaf PTE the entry came
    from. *)
Lemma page_translate_addr_hit ptm va t ent (w : World) :
  tlb_lookup (get_tlb t (w_mmu w)) (pdid (w_proc w))
             (Z.shiftr (sptbr (w_proc w)) ppn_bits) va = Some ent ->
  page_translate_addr XLEN ptm va t w
  = (returns (wrap addr_bits
                (Z.lor (Z.shiftl (ent_ppn ent) page_shift) (Z.land va 4095)),
              Some ent),
     with_call (call_lookup t (pdid (w_proc w))
                            (Z.shiftr (sptbr (w_proc w)) ppn_bits) va) w).
Proof.
  intros H. unfold page_translate_addr, bind, get_proc, lookup_in.
  rewrite H. rewrite lnot_page_mask. reflexivity.
Qed.

(** X4: a miss followed by a successful walk, then the same translation
    again.  The walk gives the address composed at the level of the leaf;
    the entry inserted holds [pte.val.ppn], so when the TLB finds it again
    the second translation gives that ppn with the low twelve bits of [va]
    only, and it does so without walking: its one call is the lookup, it
    asks the memory for nothing and inserts nothing. *)
Lemma page_translate_addr_again ptm va t pa pte (w w2 : World) :
  let asid := Z.shiftr (sptbr (w_proc w)) ppn_bits in
  let ins := tlb_insert (get_tlb t (w_mmu w2)) (pdid (w_proc w)) asid va
                        (pte_flags pte) (pte_ppn ptm pte) in
  tlb_lookup (get_tlb t (w_mmu w)) (pdid (w_proc w)) asid va = None ->
  walk_page_table XLEN ptm va
    (with_call (call_lookup t (pdid (w_proc w)) asid va) w)
  = (returns (pa, pte), w2) ->
  pa <> illegal_address ->
  tlb_lookup (fst ins) (pdid (w_proc w)) asid va = Some (snd ins) ->
  ent_ppn (snd ins) = pte_ppn ptm pte ->
  fst (page_translate_addr XLEN ptm va t w) = returns (pa, Some (snd ins))
  /\ fst (page_translate_addr XLEN ptm va t
            (snd (page_translate_addr XLEN ptm va t w)))
     = returns (wrap addr_bits
                  (Z.lor (Z.shiftl (pte_ppn ptm pte) page_shift)
                         (Z.land va 4095)),
                Some (snd ins))
  /\ snd (page_translate_addr XLEN ptm va t
            (snd (page_translate_addr XLEN ptm va t w)))
     = with_call (call_lookup t (pdid (w_proc w)) asid va)
                 (snd (page_translate_addr XLEN ptm va t w)).
Proof.
  intros asid ins Hmiss Hwalk Hpa Hhit Hppn.
  destruct (returns_in_walk_page_table XLEN t ptm va
              (with_call (call_lookup t (pdid (w_proc w)) asid va) w))
    as (r & w2' & E & F).
  rewrite Hwalk in E. inversion E; subst r w2'. clear E.
  pose proof (frame_proc _ _ _ F) as Hproc. cbn [w_proc with_call] in Hproc.
  set (w3 := with_call (call_insert t (pdid (w_proc w)) asid va
                                    (pte_flags pte) (pte_ppn ptm pte))
                       (with_mmu (set_tlb t (fst ins) (w_mmu w2)) w2)).
  assert (Hfirst : page_translate_addr XLEN ptm va t w
                   = (returns (pa, Some (snd ins)), w3)).
  { unfold page_translate_addr, bind at 1, get_proc.
    unfold bind at 1, lookup_in. fold asid. rewrite Hmiss.
    unfold page_translate_addr_tlb_miss, bind at 1. rewrite Hwalk.
    apply Z.eqb_neq in Hpa. rewrite Hpa. cbn [negb].
    unfold bind, get_proc, insert_in, ret. rewrite Hproc. fold asid. fold ins.
    unfold w3. destruct ins as [tlb' ent]. reflexivity. }
  assert (Hhit3 : tlb_lookup (get_tlb t (w_mmu w3)) (pdid (w_proc w3))
                    (Z.shiftr (sptbr (w_proc w3)) ppn_bits) va
                  = Some (snd ins)).
  { unfold w3. cbn [w_proc w_mmu with_call with_mmu]. rewrite Hproc. fold asid.
    replace (get_tlb t (set_tlb t (fst ins) (w_mmu w2))) with (fst ins)
      by (destruct t; reflexivity).
    exact Hhit. }
  rewrite Hfirst. cbn [fst snd].
  rewrite (page_translate_addr_hit ptm va t (snd ins) w3 Hhit3).
  cbn [fst snd]. split; [reflexivity | split].
  - rewrite <- Hppn. reflexivity.
  - unfold w3 at 1 2. cbn [w_proc with_call with_mmu]. rewrite Hproc.
    reflexivity.
Qed.

(** The first thing a walk asks the memory for is the address
    [ppn + vpn * sizeof (pte_type)], where [ppn] is the root ppn of
    [sptbr], taken as it is. *)
Lemma walk_page_table_first_call ptm va top (w : World) :
  levels ptm = S top ->
  let shift := bits ptm * Z.of_nat top + page_shift in
  let vpn := Z.land (Z.shiftr va shift) (Z.shiftl 1 (bits ptm) - 1) in
  let ppn := UX XLEN (Z.land (sptbr (w_proc w)) (Z.shiftl 1 ppn_bits - 1)) in
  exists cs,
    w_calls (snd (walk_page_table XLEN ptm va w))
    = w_calls w ++ call_mpa_to_uva (UX XLEN (ppn + vpn * sizeof_pte ptm)) :: cs.
Proof.
  intros Hl shift vpn ppn.
  unfold walk_page_table, bind at 1, get_proc. rewrite Hl.
  cbn [walk_levels]. fold shift. fold vpn. fold ppn.
  set (pte_mpa := UX XLEN (ppn + vpn * sizeof_pte ptm)).
  unfold bind at 1, mem_mpa_to_uva.
  set (w1 := with_call (call_mpa_to_uva pte_mpa) w).
  destruct (mpa_to_uva (mem (w_mmu w)) pte_mpa =? illegal_address).
  - exists []. reflexivity.
  - unfold bind, deref.
    destruct (walk_pte XLEN ptm va shift _).
    + exists []. reflexivity.
    + exists []. reflexivity.
    + destruct (returns_in_walk_levels XLEN ref_l1_dtlb ptm va top ppn0 0 w1)
        as (r & w2 & E & F).
      rewrite E. destruct (frame_calls _ _ _ F) as (cs & C & _).
      exists cs. simpl. rewrite C. unfold w1. simpl.
      rewrite <- app_assoc. reflexivity.
Qed.

End Walker_facts.

(** ** The PMA table *)

Section PMA_facts.

Context {tlb_type pma_type memory_type : Type}.
Context {tlb_ops : TLB tlb_type} {mem_ops : MEMORY memory_type}.
Variable XLEN : Z.

Local Abbreviation World := (world tlb_type pma_type memory_type).
Local Abbreviation blind m := (@pma_blind tlb_type pma_type memory_type _ m).

Lemma pma_blind_ret {A} (a : A) : blind (ret a).
Proof. intros p w. reflexivity. Qed.

Lemma pma_blind_longjmp {A} c : blind (do_longjmp (A := A) c).
Proof. intros p w. reflexivity. Qed.

Lemma pma_blind_bind {A B} (m : M A) (k : A -> M B) :
  blind m -> (forall a, blind (k a)) -> blind (bind m k).
Proof.
  intros Hm Hk p w. unfold bind. rewrite Hm.
  destruct (m w) as [[a | c] w1]; simpl; [apply Hk | reflexivity].
Qed.

Lemma pma_blind_get_proc : blind get_proc.
Proof. intros p w. reflexivity. Qed.

Lemma pma_blind_assign_badaddr va : blind (assign_badaddr va).
Proof. intros p w. reflexivity. Qed.

Lemma pma_blind_assign_val v : blind (assign_val v).
Proof. intros p w. reflexivity. Qed.

Lemma pma_blind_lookup_in t pdid asid va : blind (lookup_in t pdid asid va).
Proof. intros p w. destruct t; reflexivity. Qed.

Lemma pma_blind_insert_in t pdid asid va flags ppn :
  blind (insert_in t pdid asid va flags ppn).
Proof.
  intros p w. unfold insert_in.
  replace (get_tlb t (w_mmu (with_pma p w))) with (get_tlb t (w_mmu w))
    by (destruct t; reflexivity).
  destruct (tlb_insert (get_tlb t (w_mmu w)) pdid asid va flags ppn).
  destruct t; reflexivity.
Qed.

Lemma pma_blind_mem_mpa_to_uva mpa : blind (mem_mpa_to_uva mpa).
Proof. intros p w. reflexivity. Qed.

Lemma pma_blind_deref uva n : blind (deref uva n).
Proof. intros p w. reflexivity. Qed.

Lemma pma_blind_deref_assign uva n v : blind (deref_assign uva n v).
Proof. intros p w. reflexivity. Qed.

Ltac pma_blind_step :=
  match goal with
  | |- pma_blind (bind _ _) => apply pma_blind_bind; [| intros ?]
  | |- pma_blind (ret _) => apply pma_blind_ret
  | |- pma_blind (do_longjmp _) => apply pma_blind_longjmp
  | |- pma_blind get_proc => apply pma_blind_get_proc
  | |- pma_blind (assign_badaddr _) => apply pma_blind_assign_badaddr
  | |- pma_blind (assign_val _) => apply pma_blind_assign_val
  | |- pma_blind (lookup_in _ _ _ _) => apply pma_blind_lookup_in
  | |- pma_blind (insert_in _ _ _ _ _ _) => apply pma_blind_insert_in
  | |- pma_blind (mem_mpa_to_uva _) => apply pma_blind_mem_mpa_to_uva
  | |- pma_blind (deref _ _) => apply pma_blind_deref
  | |- pma_blind (deref_assign _ _ _) => apply pma_blind_deref_assign
  | |- pma_blind (if ?b then _ else _) => destruct b
  | |- pma_blind (match ?x with _ => _ end) => destruct x
  end.

Lemma pma_blind_walk_levels ptm va n ppn pte :
  blind (walk_levels XLEN ptm va n ppn pte).
Proof.
  revert ppn pte. induction n as [| level IH]; intros ppn pte; simpl.
  - apply pma_blind_ret.
  - repeat pma_blind_step. apply IH.
Qed.

Lemma pma_blind_translate_addr fetch va tlb_ent :
  blind (translate_addr XLEN fetch va tlb_ent).
Proof.
  unfold translate_addr, page_translate_addr, page_translate_addr_tlb_miss,
    walk_page_table.
  repeat first [apply pma_blind_walk_levels | pma_blind_step].
Qed.

(** A store at an aligned address returns as soon as the translation gives
    an address and the memory has a host address for it. *)
Lemma store_accepted T va val mpa ent (w w1 : World) :
  misaligned T va = false ->
  translate_addr XLEN false va None w = (returns (mpa, ent), w1) ->
  illegal mpa = false ->
  illegal (mpa_to_uva (mem (w_mmu w1)) mpa) = false ->
  fst (store XLEN T va val w) = returns tt.
Proof.
  intros Ha Htr Hmpa Huva. unfold store. rewrite Ha. cbv zeta.
  unfold bind at 1. rewrite Htr. cbn [fst]. rewrite Hmpa.
  unfold bind, mem_mpa_to_uva. rewrite Huva. reflexivity.
Qed.

(** The accesses at an aligned address, once the translation has
    returned: refused when the address is [illegal_address] or the memory
    has no host address for it, accepted otherwise. *)
Lemma load_after_translation T va mpa ent (w w1 : World) :
  misaligned T va = false ->
  translate_addr XLEN false va None w = (returns (mpa, ent), w1) ->
  fst (load XLEN T va w)
  = if illegal mpa || illegal (mpa_to_uva (mem (w_mmu w1)) mpa)
    then longjmp riscv_cause_fault_load else returns tt.
Proof.
  intros Ha Htr. unfold load. rewrite Ha. cbv zeta.
  unfold bind at 1. rewrite Htr. cbn [fst].
  destruct (illegal mpa) eqn:Hmpa; cbn [orb].
  - unfold bind, ret. rewrite Hmpa. reflexivity.
  - unfold bind, mem_mpa_to_uva.
    destruct (illegal (mpa_to_uva (mem (w_mmu w1)) mpa)); reflexivity.
Qed.

Lemma store_after_translation T va val mpa ent (w w1 : World) :
  misaligned T va = false ->
  translate_addr XLEN false va None w = (returns (mpa, ent), w1) ->
  fst (store XLEN T va val w)
  = if illegal mpa || illegal (mpa_to_uva (mem (w_mmu w1)) mpa)
    then longjmp riscv_cause_fault_store else returns tt.
Proof.
  intros Ha Htr. unfold store. rewrite Ha. cbv zeta.
  unfold bind at 1. rewrite Htr. cbn [fst].
  destruct (illegal mpa) eqn:Hmpa; cbn [orb].
  - unfold bind, ret. rewrite Hmpa. reflexivity.
  - unfold bind, mem_mpa_to_uva.
    destruct (illegal (mpa_to_uva (mem (w_mmu w1)) mpa)); reflexivity.
Qed.

Lemma inst_fetch_after_translation pc mpa ent (w w1 : World) :
  misaligned u16 pc = false ->
  translate_addr XLEN false pc None w = (returns (mpa, ent), w1) ->
  if illegal mpa || illegal (mpa_to_uva (mem (w_mmu w1)) mpa)
  then fst (inst_fetch XLEN pc w) = longjmp riscv_cause_fault_fetch
  else exists inst, fst (inst_fetch XLEN pc w) = returns inst.
Proof.
  intros Ha Htr.
  destruct (illegal mpa) eqn:Hmpa; cbn [orb];
    [| destruct (illegal (mpa_to_uva (mem (w_mmu w1)) mpa)) eqn:Huva];
    unfold inst_fetch; rewrite Ha; cbv zeta;
    unfold bind at 1; rewrite Htr; cbn [fst]; rewrite Hmpa.
  - unfold bind, ret. rewrite Hmpa. reflexivity.
  - unfold bind, mem_mpa_to_uva. rewrite Huva. reflexivity.
  - unfold bind at 1, mem_mpa_to_uva. rewrite Huva.
    unfold riscv_inst_fetch, bind, deref, ret.
    match goal with
    | |- context [Z.land ?lo 3 =? 3] => destruct (Z.land lo 3 =? 3)
    end; eexists; reflexivity.
Qed.

(** C3, as the code has it: [load], [store] and [inst_fetch] run the same
    way and end in the same outcome whatever the PMA table of the MMU
    holds, and the table comes out as it went in.  Whatever the table, at
    an aligned address and once the translation has returned, each of
    the three raises the fault of its kind exactly when the address
    translated to is [illegal_address] or the memory has no host address
    for it, and is accepted otherwise. *)
Theorem access_ignores_pma (p : pma_type) T va val (w : World) :
  load XLEN T va (with_pma p w)
  = (fst (load XLEN T va w), with_pma p (snd (load XLEN T va w)))
  /\ store XLEN T va val (with_pma p w)
     = (fst (store XLEN T va val w), with_pma p (snd (store XLEN T va val w)))
  /\ inst_fetch XLEN va (with_pma p w)
     = (fst (inst_fetch XLEN va w), with_pma p (snd (inst_fetch XLEN va w)))
  /\ (forall mpa ent w1,
        translate_addr XLEN false va None (with_pma p w)
        = (returns (mpa, ent), w1) ->
        let refused :=
          illegal mpa || illegal (mpa_to_uva (mem (w_mmu w1)) mpa) in
        (misaligned T va = false ->
           fst (load XLEN T va (with_pma p w))
           = if refused then longjmp riscv_cause_fault_load else returns tt)
        /\ (misaligned T va = false ->
              fst (store XLEN T va val (with_pma p w))
              = if refused then longjmp riscv_cause_fault_store
                else returns tt)
        /\ (misaligned u16 va = false ->
              if refused
              then fst (inst_fetch XLEN va (with_pma p w))
                   = longjmp riscv_cause_fault_fetch
              else exists inst,
                     fst (inst_fetch XLEN va (with_pma p w)) = returns inst)).
Proof.
  assert (Hload : blind (load XLEN T va)).
  { unfold load. cbv zeta.
    repeat first [apply pma_blind_translate_addr | pma_blind_step]. }
  assert (Hstore : blind (store XLEN T va val)).
  { unfold store. cbv zeta.
    repeat first [apply pma_blind_translate_addr | pma_blind_step]. }
  assert (Hfetch : blind (inst_fetch XLEN va)).
  { unfold inst_fetch, riscv_inst_fetch. cbv zeta.
    repeat first [apply pma_blind_translate_addr | pma_blind_step]. }
  split; [apply Hload | split; [apply Hstore | split; [apply Hfetch |]]].
  intros mpa ent w1 Htr refused. split; [| split]; intros Ha.
  - apply (load_after_translation T va mpa ent _ w1 Ha Htr).
  - apply (store_after_translation T va val mpa ent _ w1 Ha Htr).
  - apply (inst_fetch_after_translation va mpa ent _ w1 Ha Htr).
Qed.

End PMA_facts.

(** ** Which TLB a fetch uses *)

Section TLB_choice.

Context {tlb_type pma_type memory_type : Type}.
Context {tlb_ops : TLB tlb_type} {mem_ops : MEMORY memory_type}.
Variable XLEN : Z.

Local Abbreviation World := (world tlb_type pma_type memory_type).

(** [inst_fetch] instantiates [translate_addr<P,false>]: whatever the
    processor and the address, it leaves the instruction TLB as it was
    and every TLB call it makes is on the data TLB. *)
Lemma inst_fetch_leaves_itlb pc (w : World) :
  l1_itlb (w_mmu (snd (inst_fetch XLEN pc w))) = l1_itlb (w_mmu w)
  /\ exists cs,
       w_calls (snd (inst_fetch XLEN pc w)) = w_calls w ++ cs
       /\ Forall (call_on ref_l1_dtlb) cs.
Proof.
  destruct (misaligned u16 pc) eqn:Ha.
  - rewrite (inst_fetch_misaligned XLEN pc w Ha). simpl. split; [reflexivity |].
    exists []. split; [symmetry; apply app_nil_r | constructor].
  - destruct (inst_fetch_aligned XLEN pc w Ha) as (w2 & F & [E | [i E]]);
      rewrite E; simpl;
      (split; [apply (frame_tlb _ _ _ F ref_l1_itlb); discriminate
              | apply (frame_calls _ _ _ F)]).
Qed.

End TLB_choice.

(** ** The loader loop *)

Lemma load_segments_filter (phdrs mapped : list Elf.Elf64_Phdr) :
  Elf.load_segments phdrs mapped
  = mapped ++ List.filter
                (fun phdr => negb (Z.land (Elf.p_flags phdr)
                                     (Z.lor Elf.PT_LOAD Elf.PT_DYNAMIC) =? 0))
                phdrs.
Proof.
  revert mapped. induction phdrs as [| phdr rest IH]; intros mapped; simpl.
  - symmetry. apply app_nil_r.
  - destruct (negb (Z.land (Elf.p_flags phdr) (Z.lor Elf.PT_LOAD Elf.PT_DYNAMIC) =? 0)).
    + rewrite IH. unfold Elf.map_load_segment_user.
      rewrite <- app_assoc. reflexivity.
    + apply IH.
Qed.

(** The headers that the loop maps are those whose [p_flags] have [PF_X]
    or [PF_W]; [p_type] is not read. *)
Lemma load_segments_test_is_on_flags (phdr : Elf.Elf64_Phdr) :
  negb (Z.land (Elf.p_flags phdr) (Z.lor Elf.PT_LOAD Elf.PT_DYNAMIC) =? 0)
  = Z.testbit (Elf.p_flags phdr) 0 || Z.testbit (Elf.p_flags phdr) 1.
Proof.
  change (Z.lor Elf.PT_LOAD Elf.PT_DYNAMIC) with (Z.lor (Z.shiftl 1 0) (Z.shiftl 1 1)).
  rewrite Z.land_lor_distr_r.
  pose proof (land_flag_testbit (Elf.p_flags phdr) 0 ltac:(lia)) as H0.
  pose proof (land_flag_testbit (Elf.p_flags phdr) 1 ltac:(lia)) as H1.
  destruct (Z.eqb_spec (Z.land (Elf.p_flags phdr) (Z.shiftl 1 0)) 0) as [E0 | E0];
    destruct (Z.eqb_spec (Z.land (Elf.p_flags phdr) (Z.shiftl 1 1)) 0) as [E1 | E1];
    rewrite <- (negb_involutive (Z.testbit (Elf.p_flags phdr) 0)), <- H0;
    rewrite <- (negb_involutive (Z.testbit (Elf.p_flags phdr) 1)), <- H1; simpl.
  - rewrite E0, E1. reflexivity.
  - apply negb_true_iff, Z.eqb_neq. rewrite Z.lor_eq_0_iff. tauto.
  - apply negb_true_iff, Z.eqb_neq. rewrite Z.lor_eq_0_iff. tauto.
  - apply negb_true_iff, Z.eqb_neq. rewrite Z.lor_eq_0_iff. tauto.
Qed.

(** C5, the code at two headers: the loop leaves out a [PT_LOAD] header
    whose flags are [PF_R] alone and maps a [PT_GNU_STACK] header whose
    flags are [PF_R | PF_W]. *)
Theorem load_segments_tests_p_flags :
  Elf.is_load_or_dynamic Elf.rodata_phdr = true
  /\ Elf.is_load_or_dynamic Elf.gnu_stack_phdr = false
  /\ Elf.load_segments [Elf.rodata_phdr; Elf.gnu_stack_phdr] []
     = [Elf.gnu_stack_phdr].
Proof. repeat split. Qed.

(** ** The direct-mapped TLB *)

Lemma tlb_index_lt (va : Z) : (tlb_index va < Z.to_nat tlb_size)%nat.
Proof.
  unfold tlb_index, tlb_size.
  pose proof (Z.mod_pos_bound (Z.shiftr va page_shift) 128 ltac:(lia)).
  lia.
Qed.

(** After an insert, the lookup with the same pdid, root ppn and address
    finds the entry inserted, and this entry holds the ppn passed. *)
Lemma tagged_tlb_lookup_insert (tlb : tagged_tlb) pdid asid va flags ppn :
  length tlb = Z.to_nat tlb_size ->
  tagged_tlb_lookup (fst (tagged_tlb_insert tlb pdid asid va flags ppn))
                    pdid asid va
  = Some (snd (tagged_tlb_insert tlb pdid asid va flags ppn))
  /\ ent_ppn (snd (tagged_tlb_insert tlb pdid asid va flags ppn)) = ppn.
Proof.
  intros Hlen. split; [| reflexivity].
  unfold tagged_tlb_lookup, tagged_tlb_insert, tagged_tlb in *. cbn [fst snd].
  rewrite list_lookup_insert_eq by (rewrite Hlen; apply tlb_index_lt).
  cbn [ent_pdid ent_asid ent_vpn]. rewrite !Z.eqb_refl. reflexivity.
Qed.

(** ** The scenarios, run *)

(** C1, the code at S3: the PTE at [(ppn << 12) + vpn * 8], pa 0x80000000,
    is mapped and is a valid leaf for va 0x1000 -> pa 0x2000, but the
    walker asks the memory for [ppn + vpn * 8], pa 0x80000, finds nothing
    there and the load ends in [fault_load]. *)
Theorem s3_walk_reads_at_unshifted_ppn :
  user_mpa_to_uva Scenario.s3_segments (Z.shiftl 0x80000 page_shift + 0 * 8)
  = Scenario.host_base
  /\ walk_pte Scenario.XLEN sv39 0x1000 30
       (host_load (w_host Scenario.s3_world) Scenario.host_base 8)
     = walk_return 0x2000
  /\ fst (Scenario.run_load u8 0x1000 Scenario.s3_world)
     = longjmp riscv_cause_fault_load
  /\ w_calls (snd (Scenario.run_load u8 0x1000 Scenario.s3_world))
     = [call_lookup ref_l1_dtlb 0 0 0x1000; call_mpa_to_uva 0x80000].
Proof. repeat split; vm_compute; reflexivity. Qed.

(** C2, the code at S4: the fetch from va 0x4000_1000 under sv39 looks up
    and fills the data TLB; the instruction TLB is still empty after it. *)
Theorem s4_fetch_goes_through_data_tlb :
  w_calls (snd (Scenario.run_fetch 0x40001000 Scenario.s4_world))
  = [call_lookup ref_l1_dtlb 0 0 0x40001000;
     call_mpa_to_uva 8;
     call_mpa_to_uva 0;
     call_insert ref_l1_dtlb 0 0 0x40001000 11 0x100000;
     call_mpa_to_uva 0x100001000]
  /\ l1_itlb (w_mmu (snd (Scenario.run_fetch 0x40001000 Scenario.s4_world)))
     = tlb_flushed
  /\ l1_dtlb (w_mmu (snd (Scenario.run_fetch 0x40001000 Scenario.s4_world)))
     <> tlb_flushed.
Proof.
  split; [vm_compute; reflexivity | split; [vm_compute; reflexivity |]].
  intros H. apply (f_equal (fun tlb => tlb !! 1%nat)) in H.
  vm_compute in H. discriminate H.
Qed.

(** C4, the code at S4: the first fetch from va 0x4000_1000 walks the
    table and returns the instruction at pa 0x1_0000_1000; the second
    fetch from the same address hits the TLB entry that the first one
    inserted, asks the memory for pa 0x1_0000_0000 and returns the
    instruction stored there. *)
Theorem s4_second_fetch_reads_megapage_base :
  host_load (w_host Scenario.s4_world)
    (user_mpa_to_uva Scenario.s4_segments 0x100001000) 4 = 0x13
  /\ host_load (w_host Scenario.s4_world)
       (user_mpa_to_uva Scenario.s4_segments 0x100000000) 2 = 0x1
  /\ fst (Scenario.run_fetch 0x40001000 Scenario.s4_world) = returns (0x13, 4)
  /\ fst (Scenario.run_fetch 0x40001000
            (snd (Scenario.run_fetch 0x40001000 Scenario.s4_world)))
     = returns (0x1, 2)
  /\ w_calls (snd (Scenario.run_fetch 0x40001000
                     (snd (Scenario.run_fetch 0x40001000 Scenario.s4_world))))
     = w_calls (snd (Scenario.run_fetch 0x40001000 Scenario.s4_world))
       ++ [call_lookup ref_l1_dtlb 0 0 0x40001000;
           call_mpa_to_uva 0x100000000].
Proof. repeat split; vm_compute; reflexivity. Qed.

(** C3 refuted at S1: the PMA table declares the page at pa 0x1000 not
    writable, and the store of a word to 0x1000 returns, with the word in
    host memory, instead of raising [fault_store]. *)
Lemma s1_store_to_read_only_pma_returns :
  (exists e,
      pma_lookup (pma (w_mmu Scenario.s1_world)) 0x1000 = Some e
      /\ pma_writable e = false)
  /\ fst (Scenario.run_store u32 0x1000 0xDEADBEEF Scenario.s1_world)
     = returns tt
  /\ host_load
       (w_host (snd (Scenario.run_store u32 0x1000 0xDEADBEEF Scenario.s1_world)))
       Scenario.host_base 4
     = 0xDEADBEEF.
Proof.
  split; [eexists; split; reflexivity |].
  split; vm_compute; reflexivity.
Qed.

(** *** The general theorems, at the scenarios *)

Lemma misaligned_exactly_when_unaligned_witness :
  Scenario.run_load u32 0x1002 Scenario.s1_world
  = (longjmp riscv_cause_misaligned_load,
     with_proc (set_badaddr 0x1002 (w_proc Scenario.s1_world)) Scenario.s1_world)
  /\ raised_misaligned (Scenario.run_load u32 0x1000 Scenario.s1_world) = false
  /\ Scenario.run_fetch 0x1001 Scenario.s1_world
     = (longjmp riscv_cause_misaligned_fetch,
        with_proc (set_badaddr 0x1001 (w_proc Scenario.s1_world)) Scenario.s1_world)
  /\ raised_misaligned (Scenario.run_fetch 0x1002 Scenario.s1_world) = false.
Proof.
  destruct (@misaligned_exactly_when_unaligned _ _ _ Scenario.tlb_rv64
              user_memory_ops Scenario.XLEN u32 0x1002 0 Scenario.s1_world)
    as (Hbad & _ & _ & Hfetch_ok).
  destruct (@misaligned_exactly_when_unaligned _ _ _ Scenario.tlb_rv64
              user_memory_ops Scenario.XLEN u32 0x1000 0 Scenario.s1_world)
    as (_ & Hok & _ & _).
  destruct (@misaligned_exactly_when_unaligned _ _ _ Scenario.tlb_rv64
              user_memory_ops Scenario.XLEN u32 0x1001 0 Scenario.s1_world)
    as (_ & _ & Hfetch_bad & _).
  split; [apply Hbad; vm_compute; discriminate |].
  split; [apply Hok; vm_compute; reflexivity |].
  split; [apply Hfetch_bad; vm_compute; discriminate |].
  apply Hfetch_ok; vm_compute; reflexivity.
Defined.

Lemma fault_records_badaddr_witness :
  badaddr (w_proc (snd (Scenario.run_load u8 0x1000 Scenario.s3_world))) = 0x1000
  /\ badaddr (w_proc (snd (Scenario.run_store u32 0x1002 0 Scenario.s1_world)))
     = 0x1002
  /\ badaddr (w_proc (snd (Scenario.run_fetch 0x5000 Scenario.s1_world)))
     = 0x5000.
Proof.
  split; [| split].
  - destruct (@fault_records_badaddr _ _ _ Scenario.tlb_rv64 user_memory_ops
                Scenario.XLEN u8 0x1000 0 riscv_cause_fault_load
                Scenario.s3_world
                (snd (Scenario.run_load u8 0x1000 Scenario.s3_world)))
      as (_ & Hload & _).
    apply Hload. vm_compute. reflexivity.
  - destruct (@fault_records_badaddr _ _ _ Scenario.tlb_rv64 user_memory_ops
                Scenario.XLEN u32 0x1002 0 riscv_cause_misaligned_store
                Scenario.s1_world
                (snd (Scenario.run_store u32 0x1002 0 Scenario.s1_world)))
      as (_ & _ & Hstore).
    apply Hstore. vm_compute. reflexivity.
  - destruct (@fault_records_badaddr _ _ _ Scenario.tlb_rv64 user_memory_ops
                Scenario.XLEN u8 0x5000 0 riscv_cause_fault_fetch
                Scenario.s1_world
                (snd (Scenario.run_fetch 0x5000 Scenario.s1_world)))
      as (Hfetch & _ & _).
    apply Hfetch. vm_compute. reflexivity.
Defined.

Lemma load_fault_keeps_val_witness :
  w_val Scenario.s3_world = 0x77
  /\ w_val (snd (Scenario.run_load u8 0x1000 Scenario.s3_world)) = 0x77.
Proof.
  split; [reflexivity |].
  apply (@load_fault_keeps_val _ _ _ Scenario.tlb_rv64 user_memory_ops
           Scenario.XLEN u8 0x1000 riscv_cause_fault_load Scenario.s3_world).
  vm_compute. reflexivity.
Defined.

Lemma translate_addr_identity_witness :
  translate_addr (pma_type := pma_table) (tlb_ops := Scenario.tlb_rv64)
    (mem_ops := user_memory_ops) Scenario.XLEN false 0x1000 None
    Scenario.s1_world
  = (returns (0x1000, None), Scenario.s1_world)
  /\ w_calls (snd (Scenario.run_load u32 0x1000 Scenario.s1_world))
     = [call_mpa_to_uva 0x1000].
Proof.
  destruct (translate_addr_identity (tlb_ops := Scenario.tlb_rv64)
              (mem_ops := user_memory_ops) Scenario.XLEN false u32 0x1000 0
              None Scenario.s1_world) as (Htr & _ & _ & _).
  - left. split; reflexivity.
  - split; [exact Htr | reflexivity].
Defined.

Lemma walk_fault_tests_witness :
  walk_levels (mem_ops := user_memory_ops) Scenario.XLEN
    sv39 0x80000000 3 0 0 Scenario.s4_world
  = (returns (illegal_address, 0),
     with_call (call_mpa_to_uva 16) Scenario.s4_world)
  /\ walk_levels (mem_ops := user_memory_ops) Scenario.XLEN
       sv39 0 1 0 0 Cases.pointer_world
     = (returns (illegal_address, 0),
        with_call (call_mpa_to_uva 0) Cases.pointer_world).
Proof.
  split.
  - pose proof (walk_fault_tests (mem_ops := user_memory_ops)
                  Scenario.XLEN sv39 0x80000000 2%nat 0 0 Scenario.s4_world)
      as H.
    cbv zeta in H. destruct H as (_ & H & _).
    rewrite H by (vm_compute; discriminate).
    reflexivity.
  - pose proof (walk_fault_tests (mem_ops := user_memory_ops)
                  Scenario.XLEN sv39 0 0%nat 0 0 Cases.pointer_world) as H.
    cbv zeta in H. destruct H as (_ & _ & H).
    apply H; [vm_compute; discriminate | reflexivity ..].
Defined.

Lemma access_ignores_pma_witness :
  fst (Scenario.run_load u32 0x1000
         (with_pma Scenario.read_only_pma Scenario.s1_world))
  = returns tt
  /\ fst (Scenario.run_store u32 0x1000 0xDEADBEEF
            (with_pma Scenario.read_only_pma Scenario.s1_world))
     = returns tt
  /\ (exists inst,
        fst (Scenario.run_fetch 0x1000
               (with_pma Scenario.read_only_pma Scenario.s1_world))
        = returns inst).
Proof.
  destruct (access_ignores_pma (tlb_ops := Scenario.tlb_rv64)
              (mem_ops := user_memory_ops) Scenario.XLEN
              Scenario.read_only_pma u32 0x1000 0xDEADBEEF Scenario.s1_world)
    as (_ & _ & _ & Haccess).
  destruct (Haccess 0x1000 None
              (with_pma Scenario.read_only_pma Scenario.s1_world))
    as (Hload & Hstore & Hfetch); [reflexivity |].
  split; [apply Hload; reflexivity |].
  split; [apply Hstore; reflexivity |].
  apply Hfetch. reflexivity.
Defined.

(** *** S1 and S2 of the spec *)

(** S1: in machine mode with [mprv = 0], the word stored at 0x1000 is the
    word loaded from it, and neither access faults. *)
Example s1_store_then_load :
  fst (Scenario.run_store u32 0x1000 0xDEADBEEF Scenario.s1_world) = returns tt
  /\ fst (Scenario.run_load u32 0x1000
            (snd (Scenario.run_store u32 0x1000 0xDEADBEEF Scenario.s1_world)))
     = returns tt
  /\ w_val (snd (Scenario.run_load u32 0x1000
                   (snd (Scenario.run_store u32 0x1000 0xDEADBEEF
                                            Scenario.s1_world))))
     = 0xDEADBEEF.
Proof. repeat split; vm_compute; reflexivity. Qed.

(** S2: the load of a word from 0x1002 raises [misaligned_load] and sets
    [badaddr] to 0x1002. *)
Example s2_misaligned_load :
  fst (Scenario.run_load u32 0x1002 Scenario.s1_world)
  = longjmp riscv_cause_misaligned_load
  /\ badaddr (w_proc (snd (Scenario.run_load u32 0x1002 Scenario.s1_world)))
     = 0x1002.
Proof. split; reflexivity. Qed.

(** * Further properties of the code *)

(** ** Host memory *)

Lemma host_store_outside n : forall h a v x,
  x < a \/ a + Z.of_nat n <= x -> host_store h a n v x = h x.
Proof.
  induction n as [| n IH]; intros h a v x Hx; [reflexivity |].
  cbn [host_store]. rewrite IH by lia.
  destruct (Z.eqb_spec x a); [lia | reflexivity].
Qed.

Lemma host_load_store n : forall h a v,
  host_load (host_store h a n v) a n = v mod 256 ^ Z.of_nat n.
Proof.
  induction n as [| n IH]; intros h a v.
  - cbn [host_load]. change (256 ^ Z.of_nat 0) with 1. symmetry. apply Z.mod_1_r.
  - cbn [host_load host_store]. rewrite IH.
    rewrite host_store_outside by lia. rewrite Z.eqb_refl.
    rewrite Nat2Z.inj_succ, Z.pow_succ_r by lia.
    rewrite Z.mod_mod by lia.
    rewrite (Z.rem_mul_r v 256 (256 ^ Z.of_nat n)) by lia.
    reflexivity.
Qed.

Section Walk_effects.

Context {tlb_type pma_type memory_type : Type}.
Context {tlb_ops : TLB tlb_type} {mem_ops : MEMORY memory_type}.
Variable XLEN : Z.

Local Abbreviation World := (world tlb_type pma_type memory_type).

(** The loop of the walker with [n] levels to go returns, asks the
    memory at most [n] times and does nothing else. *)
Lemma walk_levels_effect ptm va n : forall ppn pte (w : World),
  exists r cs,
    walk_levels XLEN ptm va n ppn pte w
    = (returns r,
       {| w_proc := w_proc w; w_mmu := w_mmu w; w_host := w_host w;
          w_val := w_val w; w_calls := w_calls w ++ cs |})
    /\ (length cs <= n)%nat
    /\ Forall (fun c => exists mpa, c = call_mpa_to_uva mpa) cs.
Proof.
  induction n as [| level IH]; intros ppn pte w.
  - exists (illegal_address, pte), []. cbn [walk_levels]. unfold ret.
    rewrite app_nil_r. destruct w. repeat split; [simpl; lia | constructor].
  - cbn [walk_levels]. unfold bind at 1, mem_mpa_to_uva.
    set (pte_mpa := UX XLEN (ppn + _ * sizeof_pte ptm)).
    assert (Hone : Forall (fun c => exists mpa, c = call_mpa_to_uva mpa)
                     [call_mpa_to_uva pte_mpa])
      by (repeat constructor; eexists; reflexivity).
    destruct (mpa_to_uva (mem (w_mmu w)) pte_mpa =? illegal_address).
    + eexists _, [call_mpa_to_uva pte_mpa]. unfold ret, with_call.
      repeat split; [simpl; lia | exact Hone].
    + unfold bind at 1, deref. cbn [w_host with_call].
      destruct (walk_pte XLEN ptm va _ _) as [| pa | ppn'].
      * eexists _, [call_mpa_to_uva pte_mpa]. unfold ret, with_call.
        repeat split; [simpl; lia | exact Hone].
      * eexists _, [call_mpa_to_uva pte_mpa]. unfold ret, with_call.
        repeat split; [simpl; lia | exact Hone].
      * destruct (IH ppn' 0 (with_call (call_mpa_to_uva pte_mpa) w))
          as (r & cs & E & Hlen & Hcs).
        exists r, (call_mpa_to_uva pte_mpa :: cs). rewrite E.
        cbn [w_proc w_mmu w_host w_val w_calls with_call].
        rewrite <- app_assoc. repeat split; [simpl; lia |].
        constructor; [eexists; reflexivity | exact Hcs].
Qed.

Lemma walk_page_table_returns ptm va (w : World) :
  exists r cs,
    walk_page_table XLEN ptm va w
    = (returns r,
       {| w_proc := w_proc w; w_mmu := w_mmu w; w_host := w_host w;
          w_val := w_val w; w_calls := w_calls w ++ cs |})
    /\ (length cs <= levels ptm)%nat
    /\ Forall (fun c => exists mpa, c = call_mpa_to_uva mpa) cs.
Proof.
  unfold walk_page_table, bind, get_proc.
  apply walk_levels_effect.
Qed.

(** X2: a page-table walk always returns; on the way it asks the memory
    for at most [levels] addresses, one per level, and calls nothing
    else; it leaves the processor, both TLBs, host memory and [val] as
    they were. *)
Theorem walk_page_table_effect ptm va (w : World) :
  exists r cs,
    walk_page_table XLEN ptm va w = (returns r, snd (walk_page_table XLEN ptm va w))
    /\ w_proc (snd (walk_page_table XLEN ptm va w)) = w_proc w
    /\ w_mmu (snd (walk_page_table XLEN ptm va w)) = w_mmu w
    /\ w_host (snd (walk_page_table XLEN ptm va w)) = w_host w
    /\ w_val (snd (walk_page_table XLEN ptm va w)) = w_val w
    /\ w_calls (snd (walk_page_table XLEN ptm va w)) = w_calls w ++ cs
    /\ (length cs <= levels ptm)%nat
    /\ Forall (fun c => exists mpa, c = call_mpa_to_uva mpa) cs.
Proof.
  destruct (walk_page_table_returns ptm va w) as (r & cs & E & Hlen & Hcs).
  exists r, cs. rewrite E. cbn [snd w_proc w_mmu w_host w_val w_calls].
  repeat split; assumption.
Qed.

(** *** The page offset *)

Lemma pow2_12_divides (n : Z) : 12 <= n -> (2 ^ 12 | 2 ^ n).
Proof.
  intros H. exists (2 ^ (n - 12)).
  rewrite <- Z.pow_add_r by lia. f_equal. lia.
Qed.

Lemma shifted_is_page_aligned (x : Z) : Z.shiftl x page_shift mod 2 ^ 12 = 0.
Proof.
  unfold page_shift. rewrite Z.shiftl_mul_pow2 by lia. apply Z_mod_mult.
Qed.

Lemma wrap_keeps_page_aligned (w x : Z) :
  x mod 2 ^ 12 = 0 -> wrap w x mod 2 ^ 12 = 0.
Proof.
  intros Hx. unfold wrap.
  destruct (Z.le_gt_cases 12 w) as [Hw | Hw].
  - rewrite Z.mod_mod_divide by (apply pow2_12_divides, Hw). exact Hx.
  - destruct (Z.le_gt_cases 0 w) as [Hw0 | Hw0].
    + assert (Hdiv : (2 ^ w | x)).
      { apply Z.mod_divide in Hx; [| lia].
        apply Z.divide_trans with (2 ^ 12); [| exact Hx].
        exists (2 ^ (12 - w)). rewrite <- Z.pow_add_r by lia. f_equal. lia. }
      apply Z.mod_divide in Hdiv; [| apply Z.pow_nonzero; lia].
      rewrite Hdiv. reflexivity.
    + rewrite Z.pow_neg_r by lia. rewrite Z.mod_0_r. exact Hx.
Qed.

Lemma sign_extend_keeps_page_aligned (x : Z) :
  x mod 2 ^ 12 = 0 -> sign_extend 32 x mod 2 ^ 12 = 0.
Proof.
  intros Hx. unfold sign_extend.
  rewrite Zminus_mod.
  rewrite Z.mod_mod_divide by (apply pow2_12_divides; lia).
  rewrite Zplus_mod, Hx. reflexivity.
Qed.

Lemma pte_ppn_shifted_is_page_aligned ptm pte :
  pte_ppn_shifted ptm pte mod 2 ^ 12 = 0.
Proof.
  unfold pte_ppn_shifted.
  destruct (pte_ppn_bits ptm <? 32);
    [apply sign_extend_keeps_page_aligned, shifted_is_page_aligned |].
  destruct (pte_ppn_bits ptm =? 32);
    apply wrap_keeps_page_aligned, shifted_is_page_aligned.
Qed.

Lemma leaf_offset base va shift :
  base mod 2 ^ 12 = 0 ->
  12 <= shift ->
  Z.land (wrap addr_bits (base + Z.land va (Z.shiftl 1 shift - 1))) 4095
  = Z.land va 4095.
Proof.
  intros Hbase Hs. change 4095 with (Z.ones 12). rewrite !Z.land_ones by lia.
  unfold wrap, addr_bits.
  rewrite Z.mod_mod_divide by (apply pow2_12_divides; lia).
  rewrite Zplus_mod, Hbase, Z.add_0_l, Z.mod_mod by lia.
  replace (Z.shiftl 1 shift - 1) with (Z.ones shift)
    by (rewrite Z.ones_equiv, Z.shiftl_1_l; lia).
  rewrite Z.land_ones by lia.
  apply Z.mod_mod_divide, pow2_12_divides, Hs.
Qed.

Lemma hit_offset ppn va :
  Z.land (wrap addr_bits (Z.lor (Z.shiftl ppn page_shift) (Z.land va 4095)))
         4095
  = Z.land va 4095.
Proof.
  apply Z.bits_inj'. intros n Hn. unfold wrap, addr_bits, page_shift.
  change 4095 with (Z.ones 12).
  rewrite !Z.land_spec, Z.testbit_ones by lia.
  destruct (Z.ltb_spec n 12) as [Hlt | Hge].
  - rewrite Z.mod_pow2_bits_low by lia.
    rewrite Z.lor_spec, Z.shiftl_spec_low by lia.
    rewrite Z.land_spec, Z.testbit_ones by lia.
    destruct (Z.leb_spec 0 n); [| lia].
    destruct (Z.ltb_spec n 12); [| lia].
    cbn. rewrite !andb_true_r. reflexivity.
  - rewrite !andb_false_r. reflexivity.
Qed.

Lemma walk_levels_offset ptm va n :
  0 <= bits ptm ->
  forall ppn pte (w : World) pa pte' w',
    walk_levels XLEN ptm va n ppn pte w = (returns (pa, pte'), w') ->
    pa = illegal_address \/ Z.land pa 4095 = Z.land va 4095.
Proof.
  intros Hbits. induction n as [| level IH]; intros ppn pte w pa pte' w' H.
  - cbn [walk_levels] in H. inversion H. left. reflexivity.
  - cbn [walk_levels] in H. unfold bind at 1, mem_mpa_to_uva in H.
    destruct (_ =? illegal_address) in H;
      [inversion H; left; reflexivity |].
    unfold bind at 1, deref in H.
    destruct (walk_pte XLEN ptm va _ _) as [| pa0 | ppn'] eqn:Hpte in H.
    + inversion H. left. reflexivity.
    + inversion H; subst pa0. right.
      unfold walk_pte in Hpte.
      destruct (pte_fault _); [discriminate |].
      destruct (pte_leaf _); [| discriminate].
      inversion Hpte.
      apply leaf_offset; [apply pte_ppn_shifted_is_page_aligned |].
      unfold page_shift. nia.
    + eapply IH. exact H.
Qed.

Lemma page_translate_addr_offset ptm va t (w : World) pa ent w' :
  0 <= bits ptm ->
  page_translate_addr XLEN ptm va t w = (returns (pa, ent), w') ->
  pa = illegal_address \/ Z.land pa 4095 = Z.land va 4095.
Proof.
  intros Hbits. unfold page_translate_addr, bind at 1, get_proc.
  unfold bind at 1, lookup_in.
  destruct (tlb_lookup _ _ _ _) as [e |].
  - rewrite lnot_page_mask. intros H. inversion H. right. apply hit_offset.
  - unfold page_translate_addr_tlb_miss, bind at 1, walk_page_table.
    unfold bind at 1, get_proc.
    destruct (walk_levels XLEN ptm va (levels ptm) _ 0 _) as [[[pa0 pte] | c] w1] eqn:E.
    + apply walk_levels_offset in E; [| exact Hbits].
      destruct (negb (pa0 =? illegal_address)).
      * unfold bind, get_proc, insert_in.
        destruct (tlb_insert _ _ _ _ _ _). intros H. inversion H; subst. exact E.
      * intros H. inversion H; subst. exact E.
    + discriminate.
Qed.

(** X1: whatever [translate_addr] returns is [illegal_address] or an
    address with the low twelve bits of [va]: translation keeps the
    offset in the page, in every mode and scheme, on a TLB hit as on a
    walk. *)
Theorem translate_addr_keeps_page_offset
    (fetch : bool) va tlb_ent (w : World) pa ent w' :
  translate_addr XLEN fetch va tlb_ent w = (returns (pa, ent), w') ->
  pa = illegal_address \/ Z.land pa 4095 = Z.land va 4095.
Proof.
  unfold translate_addr, bind at 1, get_proc.
  destruct (mode (w_proc w)), (mstatus_mprv (w_proc w) =? 0),
           (mstatus_vm (w_proc w));
    try (intros H; inversion H; right; reflexivity);
    try (intros H; inversion H; left; reflexivity);
    apply page_translate_addr_offset; cbn; lia.
Qed.

(** *** Translations that fail, translations that hit *)

Lemma page_translate_addr_failure ptm va t (w : World) ent w' :
  page_translate_addr XLEN ptm va t w = (returns (illegal_address, ent), w') ->
  w_proc w' = w_proc w /\ w_mmu w' = w_mmu w /\ w_host w' = w_host w.
Proof.
  unfold page_translate_addr, bind at 1, get_proc.
  unfold bind at 1, lookup_in.
  destruct (tlb_lookup _ _ _ _) as [e |].
  - intros H. inversion H. repeat split.
  - unfold page_translate_addr_tlb_miss, bind at 1.
    destruct (walk_page_table_returns ptm va
                (with_call (call_lookup t (pdid (w_proc w))
                              (Z.shiftr (sptbr (w_proc w)) ppn_bits) va) w))
      as ([pa pte] & cs & E & _ & _).
    rewrite E. destruct (Z.eqb_spec pa illegal_address) as [Hpa | Hpa]; cbn [negb].
    + intros H. inversion H. repeat split.
    + unfold bind, get_proc, insert_in. destruct (tlb_insert _ _ _ _ _ _).
      intros H. inversion H. contradiction.
Qed.

(** X3: a translation that gives [illegal_address] has inserted nothing:
    both TLBs, the processor and host memory are as they were before. *)
Theorem translate_addr_failure_inserts_nothing
    (fetch : bool) va tlb_ent (w : World) ent w' :
  translate_addr XLEN fetch va tlb_ent w
  = (returns (illegal_address, ent), w') ->
  w_proc w' = w_proc w /\ w_mmu w' = w_mmu w /\ w_host w' = w_host w.
Proof.
  unfold translate_addr, bind at 1, get_proc.
  destruct (mode (w_proc w)), (mstatus_mprv (w_proc w) =? 0),
           (mstatus_vm (w_proc w));
    try (intros H; inversion H; repeat split; reflexivity);
    apply page_translate_addr_failure.
Qed.

Lemma shifted_ppn_disjoint ppn va :
  Z.land (Z.shiftl ppn page_shift) (Z.land va 4095) = 0.
Proof.
  apply Z.bits_inj'. intros n Hn. unfold page_shift.
  change 4095 with (Z.ones 12).
  rewrite !Z.land_spec, Z.bits_0, Z.testbit_ones by lia.
  destruct (Z.ltb_spec n 12) as [Hlt | Hge].
  - rewrite Z.shiftl_spec_low by lia. reflexivity.
  - rewrite !andb_false_r. reflexivity.
Qed.

Lemma pte_ppn_shifted_wide ptm pte :
  ptm = sv39 \/ ptm = sv48 ->
  pte_ppn_shifted ptm pte
  = wrap addr_bits (Z.shiftl (pte_ppn ptm pte) page_shift).
Proof. intros [-> | ->]; reflexivity. Qed.

(** X5: under sv39 and sv48, where the ppn of a PTE is shifted at the 64
    bits of the PTE word, for a leaf PTE read at level 0, a 4 KiB page,
    the address that the walker composes is the address that
    [page_translate_addr] composes when the TLB finds an entry holding
    the ppn of this PTE. *)
Theorem small_page_hit_agrees_with_walk ptm va pte pa t ent (w : World) :
  ptm = sv39 \/ ptm = sv48 ->
  walk_pte XLEN ptm va (bits ptm * Z.of_nat 0 + page_shift) pte
  = walk_return pa ->
  tlb_lookup (get_tlb t (w_mmu w)) (pdid (w_proc w))
             (Z.shiftr (sptbr (w_proc w)) ppn_bits) va = Some ent ->
  ent_ppn ent = pte_ppn ptm pte ->
  fst (page_translate_addr XLEN ptm va t w) = returns (pa, Some ent).
Proof.
  intros Hptm Hwalk Hhit Hppn.
  rewrite (page_translate_addr_hit XLEN ptm va t ent w Hhit). cbn [fst].
  unfold walk_pte in Hwalk.
  destruct (pte_fault _); [discriminate |].
  destruct (pte_leaf _); [| discriminate].
  inversion Hwalk as [Hpa]. rewrite Hppn.
  rewrite (pte_ppn_shifted_wide ptm pte Hptm).
  replace (bits ptm * Z.of_nat 0 + page_shift) with 12
    by (unfold page_shift; lia).
  change (Z.shiftl 1 12 - 1) with 4095.
  unfold wrap. rewrite Zplus_mod_idemp_l.
  rewrite (Z.add_nocarry_lxor _ _ (shifted_ppn_disjoint (pte_ppn ptm pte) va)).
  rewrite (Z.lxor_lor _ _ (shifted_ppn_disjoint (pte_ppn ptm pte) va)).
  reflexivity.
Qed.

Lemma translate_addr_other_vm (fetch : bool) va tlb_ent enc (w : World) :
  mstatus_vm (w_proc w) = riscv_vm_other enc ->
  mode (w_proc w) <> riscv_mode_M \/ mstatus_mprv (w_proc w) <> 0 ->
  translate_addr XLEN fetch va tlb_ent w
  = (returns (illegal_address, tlb_ent), w).
Proof.
  intros Hvm Hmode. unfold translate_addr, bind, get_proc, ret. rewrite Hvm.
  destruct (mode (w_proc w)); try reflexivity.
  destruct (Z.eqb_spec (mstatus_mprv (w_proc w)) 0); [| reflexivity].
  destruct Hmode; congruence.
Qed.

(** X6: with translation on and an encoding of [mstatus.vm] other than
    mbare, sv32, sv39 and sv48, the [switch] of [translate_addr] matches
    no case: every aligned load, store and fetch raises the fault of its
    kind with [badaddr] set, without a call on a TLB or on the memory. *)
Theorem unknown_vm_faults T va val enc (w : World) :
  mstatus_vm (w_proc w) = riscv_vm_other enc ->
  mode (w_proc w) <> riscv_mode_M \/ mstatus_mprv (w_proc w) <> 0 ->
  (misaligned T va = false ->
     load XLEN T va w
     = (longjmp riscv_cause_fault_load,
        with_proc (set_badaddr va (w_proc w)) w)
     /\ store XLEN T va val w
        = (longjmp riscv_cause_fault_store,
           with_proc (set_badaddr va (w_proc w)) w))
  /\ (misaligned u16 va = false ->
        inst_fetch XLEN va w
        = (longjmp riscv_cause_fault_fetch,
           with_proc (set_badaddr va (w_proc w)) w)).
Proof.
  intros Hvm Hmode.
  pose proof (translate_addr_other_vm false va None enc w Hvm Hmode) as E.
  split; [intros Ha; split | intros Ha].
  - unfold load. rewrite Ha. cbv zeta. unfold bind at 1. rewrite E. reflexivity.
  - unfold store. rewrite Ha. cbv zeta. unfold bind at 1. rewrite E. reflexivity.
  - unfold inst_fetch. rewrite Ha. cbv zeta. unfold bind at 1. rewrite E.
    reflexivity.
Qed.

Lemma translate_addr_hit va ent (w : World) :
  mode (w_proc w) <> riscv_mode_M \/ mstatus_mprv (w_proc w) <> 0 ->
  mstatus_vm (w_proc w) = riscv_vm_sv32
  \/ mstatus_vm (w_proc w) = riscv_vm_sv39
  \/ mstatus_vm (w_proc w) = riscv_vm_sv48 ->
  tlb_lookup (l1_dtlb (w_mmu w)) (pdid (w_proc w))
             (Z.shiftr (sptbr (w_proc w)) ppn_bits) va = Some ent ->
  translate_addr XLEN false va None w
  = (returns (wrap addr_bits
                (Z.lor (Z.shiftl (ent_ppn ent) page_shift) (Z.land va 4095)),
              Some ent),
     with_call (call_lookup ref_l1_dtlb (pdid (w_proc w))
                            (Z.shiftr (sptbr (w_proc w)) ppn_bits) va) w).
Proof.
  intros Hmode Hvm Hhit. unfold translate_addr, bind at 1, get_proc.
  assert (Hsel : match mode (w_proc w), mstatus_mprv (w_proc w) =? 0 with
                 | riscv_mode_M, true => false
                 | _, _ => true
                 end = true).
  { destruct (mode (w_proc w)); try reflexivity.
    destruct (Z.eqb_spec (mstatus_mprv (w_proc w)) 0); [| reflexivity].
    destruct Hmode; congruence. }
  destruct (mode (w_proc w)), (mstatus_mprv (w_proc w) =? 0);
    try discriminate Hsel;
    destruct Hvm as [Hvm | [Hvm | Hvm]]; rewrite Hvm;
    apply (page_translate_addr_hit XLEN _ va ref_l1_dtlb ent w Hhit).
Qed.

(** X17: a load under sv32, sv39 or sv48 whose address the data TLB
    holds does not walk the page table: it looks the TLB up once, asks
    the memory once, for the address made of the ppn of the entry and the
    low twelve bits of [va], and leaves both TLBs as they were. *)
Theorem load_on_tlb_hit T va ent (w : World) :
  mode (w_proc w) <> riscv_mode_M \/ mstatus_mprv (w_proc w) <> 0 ->
  mstatus_vm (w_proc w) = riscv_vm_sv32
  \/ mstatus_vm (w_proc w) = riscv_vm_sv39
  \/ mstatus_vm (w_proc w) = riscv_vm_sv48 ->
  misaligned T va = false ->
  tlb_lookup (l1_dtlb (w_mmu w)) (pdid (w_proc w))
             (Z.shiftr (sptbr (w_proc w)) ppn_bits) va = Some ent ->
  let pa := wrap addr_bits
              (Z.lor (Z.shiftl (ent_ppn ent) page_shift) (Z.land va 4095)) in
  illegal pa = false ->
  w_mmu (snd (load XLEN T va w)) = w_mmu w
  /\ w_calls (snd (load XLEN T va w))
     = w_calls w ++ [call_lookup ref_l1_dtlb (pdid (w_proc w))
                       (Z.shiftr (sptbr (w_proc w)) ppn_bits) va;
                     call_mpa_to_uva pa].
Proof.
  intros Hmode Hvm Ha Hhit pa Hpa.
  pose proof (translate_addr_hit va ent w Hmode Hvm Hhit) as E. fold pa in E.
  set (w1 := with_call (call_mpa_to_uva pa)
               (with_call (call_lookup ref_l1_dtlb (pdid (w_proc w))
                             (Z.shiftr (sptbr (w_proc w)) ppn_bits) va) w)).
  assert (Hload : load XLEN T va w
                  = if illegal (mpa_to_uva (mem (w_mmu w)) pa)
                    then (longjmp riscv_cause_fault_load,
                          with_proc (set_badaddr va (w_proc w)) w1)
                    else (returns tt,
                          with_val (host_load (w_host w)
                                      (mpa_to_uva (mem (w_mmu w)) pa)
                                      (sizeof_nat T)) w1)).
  { unfold load. rewrite Ha. cbv zeta. unfold bind at 1. rewrite E. cbn [fst].
    rewrite Hpa. unfold bind at 1, mem_mpa_to_uva. cbn [w_mmu with_call].
    destruct (illegal (mpa_to_uva (mem (w_mmu w)) pa)); reflexivity. }
  rewrite Hload.
  destruct (illegal (mpa_to_uva (mem (w_mmu w)) pa));
    cbn [snd w_mmu w_calls with_call with_proc with_val w1];
    (split; [reflexivity |]); unfold w1; cbn [w_calls with_call];
    rewrite <- app_assoc; reflexivity.
Qed.

End Walk_effects.

(** ** What the accesses write *)

Section Access_effects.

Context {tlb_type pma_type memory_type : Type}.
Context {tlb_ops : TLB tlb_type} {mem_ops : MEMORY memory_type}.
Variable XLEN : Z.

Local Abbreviation World := (world tlb_type pma_type memory_type).

Lemma store_bare T va val (w : World) :
  (mode (w_proc w) = riscv_mode_M /\ mstatus_mprv (w_proc w) = 0)
  \/ mstatus_vm (w_proc w) = riscv_vm_mbare ->
  misaligned T va = false ->
  illegal va = false ->
  illegal (mpa_to_uva (mem (w_mmu w)) va) = false ->
  store XLEN T va val w
  = (returns tt,
     with_host (host_store (w_host w) (mpa_to_uva (mem (w_mmu w)) va)
                           (sizeof_nat T) val)
               (with_call (call_mpa_to_uva va) w)).
Proof.
  intros Hbare Ha Hva Huva. unfold store. rewrite Ha. cbv zeta.
  unfold bind at 1. rewrite (translate_addr_bare XLEN false va None w Hbare).
  cbn [fst]. rewrite Hva. unfold bind, mem_mpa_to_uva. rewrite Huva.
  reflexivity.
Qed.

Lemma load_bare T va (w : World) :
  (mode (w_proc w) = riscv_mode_M /\ mstatus_mprv (w_proc w) = 0)
  \/ mstatus_vm (w_proc w) = riscv_vm_mbare ->
  misaligned T va = false ->
  illegal va = false ->
  illegal (mpa_to_uva (mem (w_mmu w)) va) = false ->
  load XLEN T va w
  = (returns tt,
     with_val (host_load (w_host w) (mpa_to_uva (mem (w_mmu w)) va)
                         (sizeof_nat T))
              (with_call (call_mpa_to_uva va) w)).
Proof.
  intros Hbare Ha Hva Huva. unfold load. rewrite Ha. cbv zeta.
  unfold bind at 1. rewrite (translate_addr_bare XLEN false va None w Hbare).
  cbn [fst]. rewrite Hva. unfold bind, mem_mpa_to_uva. rewrite Huva.
  reflexivity.
Qed.

Lemma sizeof_nat_pow T : 256 ^ Z.of_nat (sizeof_nat T) = 2 ^ (8 * sizeof T).
Proof. destruct T; reflexivity. Qed.

(** X7: without translation (machine mode with [mprv = 0], or
    [vm = mbare]), at an aligned address that the memory maps, a store
    returns and the load of the same type from the same address that
    follows returns too and puts in [val] the value stored, cut to the
    [8 * sizeof (T)] bits of the type. *)
Theorem bare_store_then_load T va val (w : World) :
  (mode (w_proc w) = riscv_mode_M /\ mstatus_mprv (w_proc w) = 0)
  \/ mstatus_vm (w_proc w) = riscv_vm_mbare ->
  misaligned T va = false ->
  illegal va = false ->
  illegal (mpa_to_uva (mem (w_mmu w)) va) = false ->
  fst (store XLEN T va val w) = returns tt
  /\ fst (load XLEN T va (snd (store XLEN T va val w))) = returns tt
  /\ w_val (snd (load XLEN T va (snd (store XLEN T va val w))))
     = val mod 2 ^ (8 * sizeof T).
Proof.
  intros Hbare Ha Hva Huva.
  rewrite (store_bare T va val w Hbare Ha Hva Huva). cbn [fst snd].
  split; [reflexivity |].
  rewrite load_bare by assumption. cbn [fst snd w_val with_val].
  split; [reflexivity |].
  cbn [w_host w_mmu with_host with_call].
  rewrite host_load_store, sizeof_nat_pow. reflexivity.
Qed.

(** X8: a store changes at most the [sizeof (T)] bytes of host memory
    from one host address on; every other byte is as before, whether the
    store returns or faults. *)
Theorem store_footprint T va val (w : World) :
  exists uva, forall a,
    a < uva \/ uva + sizeof T <= a ->
    w_host (snd (store XLEN T va val w)) a = w_host w a.
Proof.
  unfold store. destruct (misaligned T va).
  - exists 0. intros a _. reflexivity.
  - cbv zeta.
    match goal with
    | |- context [bind _ (fun r => bind _ ?k) w] =>
        destruct (translate_then_uva XLEN va k w) as (uva & w2 & F & E)
    end.
    exists uva. intros a Ha. rewrite E.
    destruct (illegal uva).
    + cbn. apply (f_equal (fun h => h a) (frame_host _ _ _ F)).
    + unfold deref_assign. cbn [snd w_host with_host].
      rewrite host_store_outside
        by (unfold sizeof_nat; destruct T; cbn in *; lia).
      apply (f_equal (fun h => h a) (frame_host _ _ _ F)).
Qed.

(** X9: a load and a fetch never write host memory, a store and a fetch
    never write [val], and no access changes the memory map, the PMA
    table or the instruction TLB, whether it returns or faults. *)
Theorem accesses_never_write T va val (w : World) :
  w_host (snd (load XLEN T va w)) = w_host w
  /\ w_host (snd (inst_fetch XLEN va w)) = w_host w
  /\ w_val (snd (store XLEN T va val w)) = w_val w
  /\ w_val (snd (inst_fetch XLEN va w)) = w_val w
  /\ (forall w',
        w' = snd (load XLEN T va w) \/ w' = snd (store XLEN T va val w)
        \/ w' = snd (inst_fetch XLEN va w) ->
        mem (w_mmu w') = mem (w_mmu w)
        /\ pma (w_mmu w') = pma (w_mmu w)
        /\ l1_itlb (w_mmu w') = l1_itlb (w_mmu w)).
Proof.
  assert (Hitlb : forall w2 : World, frame ref_l1_dtlb w w2 ->
                    l1_itlb (w_mmu w2) = l1_itlb (w_mmu w))
    by (intros w2 F; apply (frame_tlb _ _ _ F ref_l1_itlb); discriminate).
  destruct (misaligned T va) eqn:Ha; destruct (misaligned u16 va) eqn:Hf.
  all: try rewrite (load_misaligned XLEN T va w Ha).
  all: try rewrite (store_misaligned XLEN T va val w Ha).
  all: try rewrite (inst_fetch_misaligned XLEN va w Hf).
  all: try (destruct (load_aligned XLEN T va w Ha) as (wl & Fl & [El | [v El]]);
            rewrite El).
  all: try (destruct (store_aligned XLEN T va val w Ha) as (ws & Fs & [Es | [h Es]]);
            rewrite Es).
  all: try (destruct (inst_fetch_aligned XLEN va w Hf) as (wf & Ff & [Ef | [i Ef]]);
            rewrite Ef).
  all: cbn [snd w_host w_val w_mmu with_proc with_val with_host].
  all: repeat match goal with
         | F : frame ref_l1_dtlb _ ?w2 |- _ =>
             pose proof (frame_host _ _ _ F);
             pose proof (frame_val _ _ _ F);
             pose proof (frame_mem _ _ _ F);
             pose proof (frame_pma _ _ _ F);
             pose proof (Hitlb _ F);
             clear F
         end.
  all: repeat match goal with |- _ /\ _ => split end;
    try assumption; try reflexivity.
  all: intros w' [-> | [-> | ->]];
    cbn [w_mmu with_proc with_val with_host];
    repeat match goal with |- _ /\ _ => split end;
    assumption || reflexivity.
Qed.

(** X18: an access that returns leaves the processor as it was,
    [badaddr] included: the MMU writes the processor only on the way to
    [longjmp]. *)
Theorem returning_access_keeps_proc T va val (w : World) :
  (fst (load XLEN T va w) = returns tt ->
     w_proc (snd (load XLEN T va w)) = w_proc w)
  /\ (fst (store XLEN T va val w) = returns tt ->
        w_proc (snd (store XLEN T va val w)) = w_proc w)
  /\ (forall inst, fst (inst_fetch XLEN va w) = returns inst ->
        w_proc (snd (inst_fetch XLEN va w)) = w_proc w).
Proof.
  split; [| split].
  - destruct (misaligned T va) eqn:Ha.
    + rewrite (load_misaligned XLEN T va w Ha). discriminate.
    + destruct (load_aligned XLEN T va w Ha) as (w2 & F & [E | [v E]]);
        rewrite E; [discriminate |].
      intros _. apply (frame_proc _ _ _ F).
  - destruct (misaligned T va) eqn:Ha.
    + rewrite (store_misaligned XLEN T va val w Ha). discriminate.
    + destruct (store_aligned XLEN T va val w Ha) as (w2 & F & [E | [h E]]);
        rewrite E; [discriminate |].
      intros _. apply (frame_proc _ _ _ F).
  - intros inst. destruct (misaligned u16 va) eqn:Ha.
    + rewrite (inst_fetch_misaligned XLEN va w Ha). discriminate.
    + destruct (inst_fetch_aligned XLEN va w Ha) as (w2 & F & [E | [i E]]);
        rewrite E; [discriminate |].
      intros _. apply (frame_proc _ _ _ F).
Qed.

(** X10: an address aligned for a type is aligned for every type that is
    not wider; and no address at all is misaligned for a byte. *)
Theorem alignment_is_monotone T T' va :
  (sizeof T' <= sizeof T ->
   misaligned T va = false -> misaligned T' va = false)
  /\ (forall a, misaligned u8 a = false).
Proof.
  split.
  - intros Hle Ha. unfold misaligned in *.
    apply negb_false_iff, Z.eqb_eq in Ha.
    assert (Hmod : forall k k', 0 <= k' <= k ->
              Z.land va (Z.ones k) = 0 -> Z.land va (Z.ones k') = 0).
    { intros k k' Hk. rewrite !Z.land_ones by lia. intros H.
      rewrite <- (Z.mod_mod_divide va (2 ^ k) (2 ^ k')).
      - rewrite H. apply Z.mod_0_l. lia.
      - exists (2 ^ (k - k')). rewrite <- Z.pow_add_r by lia. f_equal. lia. }
    assert (Hmask : forall U, sizeof U - 1 = Z.ones (Z.log2 (sizeof U)))
      by (intros []; reflexivity).
    apply negb_false_iff, Z.eqb_eq. rewrite Hmask in *.
    revert Ha. apply Hmod. destruct T, T'; cbn in *; lia.
  - intros a. unfold misaligned. cbn [sizeof].
    change (1 - 1) with 0. rewrite Z.land_0_r. reflexivity.
Qed.

(** X11: at the last level of a walk, a PTE that is valid and has none of
    R, W and X set is no leaf and there is no level left: the walk falls
    off the bottom and returns [illegal_address], with the PTE holder
    cleared. *)
Theorem walk_falls_off_the_bottom ptm va ppn pte0 (w : World) :
  let shift := bits ptm * Z.of_nat 0 + page_shift in
  let vpn := Z.land (Z.shiftr va shift) (Z.shiftl 1 (bits ptm) - 1) in
  let pte_mpa := UX XLEN (ppn + vpn * sizeof_pte ptm) in
  let pte_uva := mpa_to_uva (mem (w_mmu w)) pte_mpa in
  let pte := host_load (w_host w) pte_uva (Z.to_nat (sizeof_pte ptm)) in
  pte_uva <> illegal_address ->
  Z.testbit (pte_flags pte) pte_shift_V = true ->
  Z.testbit (pte_flags pte) pte_shift_R = false ->
  Z.testbit (pte_flags pte) pte_shift_W = false ->
  Z.testbit (pte_flags pte) pte_shift_X = false ->
  walk_levels XLEN ptm va 1 ppn pte0 w
  = (returns (illegal_address, 0), with_call (call_mpa_to_uva pte_mpa) w).
Proof.
  intros shift vpn pte_mpa pte_uva pte Huva HV HR HW HX.
  rewrite (walk_levels_turn XLEN ptm va 0%nat ppn pte0 w Huva).
  fold shift. fold vpn. fold pte_mpa. fold pte_uva. fold pte.
  rewrite walk_pte_ordered, HV, HR, HW, HX. reflexivity.
Qed.

End Access_effects.

(** ** The loader, the environment and the command line of [rv-sim.cc] *)

(** X12: the loop of [start_proxy] keeps what was mapped before it and
    maps, in the order of the program header table and once each, the
    headers whose [p_flags] have bit 0 or bit 1 set. *)
Theorem load_segments_in_order (phdrs mapped : list Elf.Elf64_Phdr) :
  Elf.load_segments phdrs mapped
  = mapped ++ List.filter
                (fun phdr => Z.testbit (Elf.p_flags phdr) 0
                             || Z.testbit (Elf.p_flags phdr) 1)
                phdrs.
Proof.
  rewrite load_segments_filter. f_equal.
  apply filter_ext. exact load_segments_test_is_on_flags.
Qed.

(** X13: [elf_p_flags_mmap] gives a protection with [PROT_READ] exactly
    when the flags have [PF_R], [PROT_WRITE] exactly when they have
    [PF_W] and [PROT_EXEC] exactly when they have [PF_X], and with no
    other bit, whatever the other bits of the flags are. *)
Theorem elf_p_flags_mmap_bits (v : Z) :
  (Z.land (Sim.elf_p_flags_mmap v) Sim.PROT_READ =? 0)
  = (Z.land v Elf.PF_R =? 0)
  /\ (Z.land (Sim.elf_p_flags_mmap v) Sim.PROT_WRITE =? 0)
     = (Z.land v Elf.PF_W =? 0)
  /\ (Z.land (Sim.elf_p_flags_mmap v) Sim.PROT_EXEC =? 0)
     = (Z.land v Elf.PF_X =? 0)
  /\ Z.land (Sim.elf_p_flags_mmap v)
            (Z.lor Sim.PROT_READ (Z.lor Sim.PROT_WRITE Sim.PROT_EXEC))
     = Sim.elf_p_flags_mmap v.
Proof.
  unfold Sim.elf_p_flags_mmap.
  destruct (Z.land v Elf.PF_X =? 0), (Z.land v Elf.PF_W =? 0),
           (Z.land v Elf.PF_R =? 0); repeat split.
Qed.

Lemma strncmp_prefix (a : string) : forall b : string,
  Sim.strlen a = String.length a ->
  (Sim.strncmp a b (Sim.strlen a) =? 0) = String.prefix a b.
Proof.
  induction a as [| c r IH]; intros b Hlen.
  - destruct b; reflexivity.
  - cbn [Sim.strlen String.length] in Hlen.
    destruct (Ascii.eqb_spec c Sim.NUL) as [Hnul | Hnul]; [discriminate |].
    injection Hlen as Hlen.
    cbn [Sim.strlen]. destruct (Ascii.eqb_spec c Sim.NUL); [contradiction |].
    cbn [Sim.strncmp Sim.char_at Sim.advance].
    assert (Hdiff : forall c2, c <> c2 ->
              (Z.of_nat (Ascii.nat_of_ascii c)
               - Z.of_nat (Ascii.nat_of_ascii c2) =? 0) = false).
    { intros c2 Hc. apply Z.eqb_neq. intros H. apply Hc.
      rewrite <- (Ascii.ascii_nat_embedding c), <- (Ascii.ascii_nat_embedding c2).
      f_equal. lia. }
    destruct b as [| c2 r2]; cbn [Sim.char_at Sim.advance String.prefix].
    + destruct (Ascii.eqb_spec c Sim.NUL); [contradiction |]. cbn [negb].
      apply Hdiff, Hnul.
    + destruct (Ascii.eqb_spec c c2) as [<- | Hc]; cbn [negb].
      * destruct (Ascii.eqb_spec c Sim.NUL); [contradiction |].
        destruct (Ascii.ascii_dec c c); [| contradiction].
        apply IH, Hlen.
      * destruct (Ascii.ascii_dec c c2); [contradiction |].
        apply Hdiff, Hc.
Qed.

Lemma prefix_append (a : string) : forall b : string,
  String.prefix a b = true <-> exists rest, b = String.append a rest.
Proof.
  induction a as [| c r IH]; intros b.
  - split; [intros _; exists b; destruct b; reflexivity | destruct b; reflexivity].
  - destruct b as [| c2 r2]; cbn [String.prefix].
    + split; [discriminate | intros [rest H]; discriminate].
    + destruct (Ascii.ascii_dec c c2) as [<- | Hc].
      * rewrite IH. split; intros [rest H]; exists rest.
        -- rewrite H. reflexivity.
        -- change (String c r2 = String c (String.append r rest)) in H.
           injection H as H. exact H.
      * split; [discriminate | intros [rest H]].
        change (String c2 r2 = String c (String.append r rest)) in H.
        injection H as H _. congruence.
Qed.

Lemma allow_env_var_is_prefix (var : string) :
  Sim.allow_env_var var = String.prefix "TERM=" var.
Proof.
  unfold Sim.allow_env_var, Sim.allowed_env_vars. cbn [Sim.allow_env_var_from].
  rewrite strncmp_prefix by reflexivity.
  destruct (String.prefix "TERM=" var); reflexivity.
Qed.

(** X14: [allow_env_var] accepts a variable exactly when its text is
    [TERM=] followed by anything; a shorter text, a text that differs in
    one of these five characters and the empty text are refused. *)
Theorem allow_env_var_accepts_term_only (var : string) :
  Sim.allow_env_var var = true
  <-> exists value, var = String.append "TERM=" value.
Proof. rewrite allow_env_var_is_prefix. apply prefix_append. Qed.

(** X15: the loop of [parse_commandline] over [envp] keeps [host_env] as
    found and adds to it, in their order in [envp], the variables that
    start with [TERM=], and no other. *)
Theorem filter_host_env_keeps_term (envp host_env : list string) :
  Sim.filter_host_env envp host_env
  = host_env ++ List.filter (String.prefix "TERM=") envp.
Proof.
  revert host_env. induction envp as [| env rest IH]; intros host_env.
  - cbn. symmetry. apply app_nil_r.
  - cbn [Sim.filter_host_env List.filter].
    rewrite allow_env_var_is_prefix.
    destruct (String.prefix "TERM=" env).
    + rewrite IH, <- app_assoc. reflexivity.
    + apply IH.
Qed.

(** X16: after the options are processed, [parse_commandline] leaves
    through [exit (9)] exactly when the processing failed, or help was
    asked for, or no file was named, and it prints the line about the
    number of arguments exactly when the processing succeeded without
    help and with no file; in every other case the first argument is the
    file to load and is also the first word of the command line of the
    guest.  [result.first[0]] is never read of an empty vector. *)
Theorem parse_commandline_outcomes
    (result : list string * bool) (help : bool)
    (envp host_cmdline host_env : list string) :
  let r := Sim.parse_commandline_after_options
             result help envp host_cmdline host_env in
  r <> Sim.parse_out_of_range
  /\ ((exists printed, r = Sim.parse_exit 9 printed)
      <-> snd result = false \/ help = true \/ fst result = [])
  /\ (r = Sim.parse_exit 9 true
      <-> snd result = true /\ help = false /\ fst result = [])
  /\ (forall first rest,
        snd result = true -> help = false -> fst result = first :: rest ->
        r = Sim.parse_done first (host_cmdline ++ first :: rest)
              (Sim.filter_host_env envp host_env)).
Proof.
  destruct result as [[| f args] [|]], help; cbn;
    repeat match goal with |- _ /\ _ => split end.
  all: try discriminate.
  all: try (intros first rest H1 H2 H3; try discriminate;
            injection H3 as -> ->; reflexivity).
  all: split;
    [ first [ intros [printed H]; discriminate H
            | discriminate
            | intros _; auto 6 ]
    | first [ intros [H | [H | H]]; discriminate H
            | intros (H1 & H2 & H3); discriminate
            | intros _; first [reflexivity | eexists; reflexivity] ] ].
Qed.

(** ** The further properties, at concrete machines *)

Lemma translate_addr_keeps_page_offset_witness :
  0x100001234 = illegal_address
  \/ Z.land 0x100001234 4095 = Z.land 0x40001234 4095.
Proof.
  eapply (translate_addr_keeps_page_offset (tlb_ops := Scenario.tlb_rv64)
            (mem_ops := user_memory_ops) Scenario.XLEN false 0x40001234 None
            Scenario.s4_world).
  vm_compute. reflexivity.
Defined.

Lemma translate_addr_failure_inserts_nothing_witness :
  w_mmu (snd (translate_addr (tlb_ops := Scenario.tlb_rv64)
                (mem_ops := user_memory_ops) Scenario.XLEN false 0x1000 None
                Scenario.s3_world))
  = w_mmu Scenario.s3_world.
Proof.
  eapply (translate_addr_failure_inserts_nothing (tlb_ops := Scenario.tlb_rv64)
            (mem_ops := user_memory_ops) Scenario.XLEN false 0x1000 None
            Scenario.s3_world None).
  vm_compute. reflexivity.
Defined.

Lemma page_translate_addr_again_witness :
  exists ent,
    fst (page_translate_addr (tlb_ops := Scenario.tlb_rv64)
           (mem_ops := user_memory_ops) Scenario.XLEN sv39 0x40001000
           ref_l1_dtlb
           (snd (page_translate_addr (tlb_ops := Scenario.tlb_rv64)
                   (mem_ops := user_memory_ops) Scenario.XLEN sv39 0x40001000
                   ref_l1_dtlb Scenario.s4_world)))
    = returns (0x100000000, Some ent)
    /\ snd (page_translate_addr (tlb_ops := Scenario.tlb_rv64)
              (mem_ops := user_memory_ops) Scenario.XLEN sv39 0x40001000
              ref_l1_dtlb
              (snd (page_translate_addr (tlb_ops := Scenario.tlb_rv64)
                      (mem_ops := user_memory_ops) Scenario.XLEN sv39
                      0x40001000 ref_l1_dtlb Scenario.s4_world)))
       = with_call (call_lookup ref_l1_dtlb 0 0 0x40001000)
           (snd (page_translate_addr (tlb_ops := Scenario.tlb_rv64)
                   (mem_ops := user_memory_ops) Scenario.XLEN sv39 0x40001000
                   ref_l1_dtlb Scenario.s4_world)).
Proof.
  pose proof (page_translate_addr_again (tlb_ops := Scenario.tlb_rv64)
                (mem_ops := user_memory_ops) Scenario.XLEN sv39 0x40001000
                ref_l1_dtlb 0x100001000 Scenario.s4_leaf Scenario.s4_world
                (snd (walk_page_table (tlb_ops := Scenario.tlb_rv64)
                        (mem_ops := user_memory_ops) Scenario.XLEN sv39
                        0x40001000
                        (with_call (call_lookup ref_l1_dtlb 0 0 0x40001000)
                                   Scenario.s4_world)))) as H.
  cbv zeta in H. eexists. eapply proj2, H.
  - reflexivity.
  - vm_compute. reflexivity.
  - vm_compute. discriminate.
  - vm_compute. reflexivity.
  - reflexivity.
Defined.

Lemma small_page_hit_agrees_with_walk_witness :
  exists ent,
    fst (page_translate_addr (tlb_ops := Scenario.tlb_rv64)
           (mem_ops := user_memory_ops) Scenario.XLEN sv39 0x1234
           ref_l1_dtlb Cases.s3_hit_world)
    = returns (0x2234, Some ent).
Proof.
  eexists.
  apply (small_page_hit_agrees_with_walk (tlb_ops := Scenario.tlb_rv64)
           (mem_ops := user_memory_ops) Scenario.XLEN sv39 0x1234
           Cases.small_leaf 0x2234 ref_l1_dtlb).
  - left. reflexivity.
  - vm_compute. reflexivity.
  - vm_compute. reflexivity.
  - vm_compute. reflexivity.
Defined.

Lemma unknown_vm_faults_witness :
  Scenario.run_load u32 0x1000 Cases.other_vm_world
  = (longjmp riscv_cause_fault_load,
     with_proc (set_badaddr 0x1000 (w_proc Cases.other_vm_world))
               Cases.other_vm_world)
  /\ Scenario.run_fetch 0x1000 Cases.other_vm_world
     = (longjmp riscv_cause_fault_fetch,
        with_proc (set_badaddr 0x1000 (w_proc Cases.other_vm_world))
                  Cases.other_vm_world).
Proof.
  destruct (unknown_vm_faults (tlb_ops := Scenario.tlb_rv64)
              (mem_ops := user_memory_ops) Scenario.XLEN u32 0x1000 0 1
              Cases.other_vm_world) as [Hdata Hfetch].
  - reflexivity.
  - left. discriminate.
  - split; [apply Hdata | apply Hfetch]; reflexivity.
Defined.

Lemma bare_store_then_load_witness :
  w_val (snd (Scenario.run_load u32 0x1000
                (snd (Scenario.run_store u32 0x1000 0x1DEADBEEF
                                         Scenario.s1_world))))
  = 0x1DEADBEEF mod 2 ^ (8 * sizeof u32).
Proof.
  apply (bare_store_then_load (tlb_ops := Scenario.tlb_rv64)
           (mem_ops := user_memory_ops) Scenario.XLEN u32 0x1000 0x1DEADBEEF
           Scenario.s1_world).
  - left. split; reflexivity.
  - reflexivity.
  - reflexivity.
  - reflexivity.
Defined.

Lemma alignment_is_monotone_witness :
  misaligned u16 0x1008 = false /\ misaligned u8 0x1001 = false.
Proof.
  destruct (alignment_is_monotone u64 u16 0x1008) as [Hnarrow Hbyte].
  split.
  - apply Hnarrow; [cbn; lia | reflexivity].
  - apply Hbyte.
Defined.

Lemma walk_falls_off_the_bottom_witness :
  walk_levels (mem_ops := user_memory_ops) Scenario.XLEN sv39 0 1 0 0
    Cases.pointer_world
  = (returns (illegal_address, 0),
     with_call (call_mpa_to_uva 0) Cases.pointer_world).
Proof.
  apply (walk_falls_off_the_bottom (mem_ops := user_memory_ops)
           Scenario.XLEN sv39 0 0 0 Cases.pointer_world).
  - vm_compute. discriminate.
  - reflexivity.
  - reflexivity.
  - reflexivity.
  - reflexivity.
Defined.

Lemma allow_env_var_accepts_term_only_witness :
  Sim.allow_env_var "TERM=xterm" = true.
Proof.
  apply (allow_env_var_accepts_term_only "TERM=xterm").
  exists "xterm"%string. reflexivity.
Defined.

Lemma parse_commandline_outcomes_witness :
  Sim.parse_commandline_after_options
    (["prog.elf"; "-v"]%string, true) false
    ["TERM=xterm"; "HOME=/root"]%string [] []
  = Sim.parse_done "prog.elf" ["prog.elf"; "-v"]%string ["TERM=xterm"%string].
Proof.
  destruct (parse_commandline_outcomes
              (["prog.elf"; "-v"]%string, true) false
              ["TERM=xterm"; "HOME=/root"]%string [] [])
    as (_ & _ & _ & Hdone).
  apply (Hdone "prog.elf"%string ["-v"%string]); reflexivity.
Defined.

Lemma load_on_tlb_hit_witness :
  w_calls (snd (Scenario.run_load u8 0x1000 Cases.s3_hit_world))
  = [call_lookup ref_l1_dtlb 0 0 0x1000; call_mpa_to_uva 0x2000].
Proof.
  destruct (load_on_tlb_hit (tlb_ops := Scenario.tlb_rv64)
              (mem_ops := user_memory_ops) Scenario.XLEN u8 0x1000
              (snd (tagged_tlb_insert tlb_flushed 0 0 0x1000 7 2))
              Cases.s3_hit_world) as [_ Hcalls].
  - left. discriminate.
  - right. left. reflexivity.
  - reflexivity.
  - vm_compute. reflexivity.
  - reflexivity.
  - exact Hcalls.
Defined.

Lemma returning_access_keeps_proc_witness :
  w_proc (snd (Scenario.run_store u32 0x1000 7 Scenario.s1_world))
  = w_proc Scenario.s1_world.
Proof.
  destruct (returning_access_keeps_proc (tlb_ops := Scenario.tlb_rv64)
              (mem_ops := user_memory_ops) Scenario.XLEN u32 0x1000 7
              Scenario.s1_world) as (_ & Hstore & _).
  apply Hstore. reflexivity.
Defined.

(** ** The TLB that a translation uses *)

Section TLB_use.

Context {tlb_type pma_type memory_type : Type}.
Context {tlb_ops : TLB tlb_type} {mem_ops : MEMORY memory_type}.
Variable XLEN : Z.

Local Abbreviation World := (world tlb_type pma_type memory_type).

(** X19: [translate_addr<P,inst_fetch>] uses the TLB that its template
    argument selects, and only this one: with [inst_fetch = true] every
    TLB call is on [l1_itlb] and [l1_dtlb] stays as it was, with
    [inst_fetch = false] it is the other way round. *)
Theorem translate_addr_uses_selected_tlb (fetch : bool) va tlb_ent (w : World) :
  let used := if fetch then ref_l1_itlb else ref_l1_dtlb in
  let other := if fetch then ref_l1_dtlb else ref_l1_itlb in
  get_tlb other (w_mmu (snd (translate_addr XLEN fetch va tlb_ent w)))
  = get_tlb other (w_mmu w)
  /\ exists cs,
       w_calls (snd (translate_addr XLEN fetch va tlb_ent w)) = w_calls w ++ cs
       /\ Forall (call_on used) cs.
Proof.
  intros used other.
  destruct (returns_in_translate_addr XLEN fetch va tlb_ent w)
    as (r & w' & E & F).
  rewrite E. cbn [snd]. split.
  - apply (frame_tlb _ _ _ F). destruct fetch; discriminate.
  - apply (frame_calls _ _ _ F).
Qed.

(** X20: when the TLB does not hold the address, [page_translate_addr]
    looks it up once, walks (at most [levels] calls on the memory) and,
    exactly when the walk gave an address other than [illegal_address],
    inserts once, for [va], the flags and the ppn of the PTE that the
    walk stopped at; it returns the address of the walk. *)
Theorem page_translate_addr_on_miss ptm va t (w : World) :
  let id := pdid (w_proc w) in
  let asid := Z.shiftr (sptbr (w_proc w)) ppn_bits in
  tlb_lookup (get_tlb t (w_mmu w)) id asid va = None ->
  exists pa pte cs ent,
    (length cs <= levels ptm)%nat
    /\ Forall (fun c => exists mpa, c = call_mpa_to_uva mpa) cs
    /\ fst (walk_page_table XLEN ptm va
              (with_call (call_lookup t id asid va) w))
       = returns (pa, pte)
    /\ fst (page_translate_addr XLEN ptm va t w) = returns (pa, ent)
    /\ w_calls (snd (page_translate_addr XLEN ptm va t w))
       = w_calls w ++ call_lookup t id asid va :: cs
         ++ (if pa =? illegal_address then []
             else [call_insert t id asid va (pte_flags pte) (pte_ppn ptm pte)])
    /\ w_mmu (snd (page_translate_addr XLEN ptm va t w))
       = (if pa =? illegal_address then w_mmu w
          else set_tlb t
                 (fst (tlb_insert (get_tlb t (w_mmu w)) id asid va
                                  (pte_flags pte) (pte_ppn ptm pte)))
                 (w_mmu w)).
Proof.
  intros id asid Hmiss.
  destruct (walk_page_table_returns XLEN ptm va
              (with_call (call_lookup t id asid va) w))
    as ([pa pte] & cs & E & Hlen & Hcs).
  set (w1 := {| w_proc := w_proc w; w_mmu := w_mmu w; w_host := w_host w;
                w_val := w_val w;
                w_calls := (w_calls w ++ [call_lookup t id asid va]) ++ cs |}).
  change (walk_page_table XLEN ptm va (with_call (call_lookup t id asid va) w)
          = (returns (pa, pte), w1)) in E.
  assert (Hrun : page_translate_addr XLEN ptm va t w
                 = if pa =? illegal_address then (returns (pa, None), w1)
                   else bind get_proc (fun proc =>
                          bind (insert_in t (pdid proc)
                                  (Z.shiftr (sptbr proc) ppn_bits)
                                  va (pte_flags pte) (pte_ppn ptm pte))
                               (fun ent => ret (pa, Some ent))) w1).
  { unfold page_translate_addr, bind at 1, get_proc.
    unfold bind at 1, lookup_in. fold id. fold asid. rewrite Hmiss.
    unfold page_translate_addr_tlb_miss, bind at 1. rewrite E.
    destruct (pa =? illegal_address); reflexivity. }
  rewrite Hrun, E. cbn [fst]. exists pa, pte, cs.
  destruct (pa =? illegal_address).
  - exists None. cbn [fst snd w_calls w_mmu w1].
    rewrite app_nil_r, <- app_assoc. repeat split; assumption.
  - unfold bind, get_proc, insert_in, ret.
    cbn [w_proc w_mmu w1]. fold id. fold asid.
    destruct (tlb_insert (get_tlb t (w_mmu w)) id asid va
                         (pte_flags pte) (pte_ppn ptm pte)) as [tlb' e].
    exists (Some e). cbn [fst snd w_calls w_mmu with_call with_mmu w1].
    rewrite <- !app_assoc. repeat split; assumption.
Qed.

End TLB_use.

Lemma page_translate_addr_on_miss_witness :
  exists pa pte cs ent,
    (length cs <= 3)%nat
    /\ fst (page_translate_addr (tlb_ops := Scenario.tlb_rv64)
              (mem_ops := user_memory_ops) Scenario.XLEN sv39 0x40001000
              ref_l1_dtlb Scenario.s4_world)
       = returns (pa, ent)
    /\ w_calls (snd (page_translate_addr (tlb_ops := Scenario.tlb_rv64)
                       (mem_ops := user_memory_ops) Scenario.XLEN sv39
                       0x40001000 ref_l1_dtlb Scenario.s4_world))
       = w_calls Scenario.s4_world
         ++ call_lookup ref_l1_dtlb 0 0 0x40001000 :: cs
         ++ (if pa =? illegal_address then []
             else [call_insert ref_l1_dtlb 0 0 0x40001000
                     (pte_flags pte) (pte_ppn sv39 pte)]).
Proof.
  destruct (page_translate_addr_on_miss (tlb_ops := Scenario.tlb_rv64)
              (mem_ops := user_memory_ops) Scenario.XLEN sv39 0x40001000
              ref_l1_dtlb Scenario.s4_world)
    as (pa & pte & cs & ent & Hlen & _ & _ & Hres & Hcalls & _).
  - reflexivity.
  - exists pa, pte, cs, ent. repeat split; assumption.
Defined.

Lemma accesses_never_write_witness :
  mem (w_mmu (snd (Scenario.run_store u32 0x1000 7 Scenario.s1_world)))
  = mem (w_mmu Scenario.s1_world)
  /\ pma (w_mmu (snd (Scenario.run_store u32 0x1000 7 Scenario.s1_world)))
     = pma (w_mmu Scenario.s1_world)
  /\ l1_itlb (w_mmu (snd (Scenario.run_store u32 0x1000 7 Scenario.s1_world)))
     = l1_itlb (w_mmu Scenario.s1_world).
Proof.
  destruct (accesses_never_write (tlb_ops := Scenario.tlb_rv64)
              (mem_ops := user_memory_ops) Scenario.XLEN u32 0x1000 7
              Scenario.s1_world) as (_ & _ & _ & _ & Hmmu).
  apply Hmmu. right. left. reflexivity.
Defined.

(** ** A walk that fails with both fault tests passed *)

(** C9 refuted at a walk: under sv39 with the root table in page 0, whose
    entry 0 is valid and has none of R, W, X, the walk for va 0 reads this
    PTE at each of its three levels; the PTE has V = 1 and not (R = 0 and
    W = 1), the body of the loop does not leave through [out] at it, and
    yet the walk fails: it returns [illegal_address] and the load ends in
    [fault_load]. *)
Lemma pointer_walk_fails_with_both_tests_passed :
  Z.testbit (pte_flags (host_load (w_host Cases.pointer_world)
                                  Scenario.host_base 8)) pte_shift_V = true
  /\ Z.testbit (pte_flags (host_load (w_host Cases.pointer_world)
                                     Scenario.host_base 8)) pte_shift_R = false
  /\ Z.testbit (pte_flags (host_load (w_host Cases.pointer_world)
                                     Scenario.host_base 8)) pte_shift_W = false
  /\ walk_pte Scenario.XLEN sv39 0 12
       (host_load (w_host Cases.pointer_world) Scenario.host_base 8)
     <> walk_out
  /\ fst (walk_page_table (tlb_ops := Scenario.tlb_rv64)
            (mem_ops := user_memory_ops) Scenario.XLEN sv39 0
            Cases.pointer_world)
     = returns (illegal_address, 0)
  /\ w_calls (snd (walk_page_table (tlb_ops := Scenario.tlb_rv64)
                     (mem_ops := user_memory_ops) Scenario.XLEN sv39 0
                     Cases.pointer_world))
     = [call_mpa_to_uva 0; call_mpa_to_uva 0; call_mpa_to_uva 0]
  /\ fst (Scenario.run_load u8 0 Cases.pointer_world)
     = longjmp riscv_cause_fault_load.
Proof.
  repeat split; try (vm_compute; reflexivity).
  vm_compute. discriminate.
Qed.

(** ** The shift of the ppn under sv32 *)

(** Under sv32 the 22 bits of [pte.val.ppn] are promoted to [int] and
    shifted there: a leaf with ppn 0x80000 read at level 0 for an address
    with offset 0x123 gives 0xffffffff80000123, under sv39 the same ppn
    gives 0x80000123. *)
Example sv32_leaf_is_shifted_as_int :
  walk_pte 32 sv32 0x123 12
    (Z.lor (Z.shiftl 0x80000 pte_flag_bits) (Z.lor pte_flag_V pte_flag_R))
  = walk_return 0xffffffff80000123
  /\ walk_pte 64 sv39 0x123 12
       (Z.lor (Z.shiftl 0x80000 pte_flag_bits) (Z.lor pte_flag_V pte_flag_R))
     = walk_return 0x80000123.
Proof. split; vm_compute; reflexivity. Qed.
